(** * maven-checker: the recursive paginated walk, the tag extractor and the
      per-repository orchestration of [maven-checker.py], embedded in Rocq.

    Python values are modelled as follows.
    - [str] is [string]; every character is a code point below 256.
    - The value returned by [response.json()] is a [json] tree.  JSON numbers
      are taken to be integers (the listing API only sends offsets and
      sizes).
    - A Python [dict] built by the script is an association list in insertion
      order with distinct keys.
    - Exceptions are the constructors of [exn]; a computation that can raise
      returns a [result]. *)

From Stdlib Require Import String Ascii List ZArith Lia Bool DecimalString.
From Stdlib Require Import Permutation.
Import ListNotations.

Local Open Scope list_scope.
Local Open Scope string_scope.

(* ================================================================== *)
(** ** Python string primitives *)
(* ================================================================== *)

Module PyStr.

(** [s[n:]] for [0 <= n]. *)
Fixpoint drop (n : nat) (s : string) : string :=
  match n, s with
  | O, _ => s
  | S _, EmptyString => EmptyString
  | S n', String _ s' => drop n' s'
  end.

(** [s[:n]] for [0 <= n]. *)
Fixpoint take (n : nat) (s : string) : string :=
  match n, s with
  | O, _ => EmptyString
  | S _, EmptyString => EmptyString
  | S n', String c s' => String c (take n' s')
  end.

(** [s.startswith(p)]. *)
Definition startswith (s p : string) : bool := prefix p s.

(** [s.endswith(suffix)]. *)
Definition endswith (s suffix : string) : bool :=
  (String.length suffix <=? String.length s)%nat
  && (drop (String.length s - String.length suffix) s =? suffix).

(** Position of the first occurrence of [sub] in [s], counted from [i]. *)
Fixpoint index_from (i : nat) (s sub : string) : option nat :=
  if startswith s sub then Some i
  else match s with
       | EmptyString => None
       | String _ s' => index_from (S i) s' sub
       end.

(** [s.find(sub)]: the lowest index where [sub] occurs, [-1] when it does
    not. *)
Definition find (s sub : string) : Z :=
  match index_from 0 s sub with
  | Some i => Z.of_nat i
  | None => (-1)%Z
  end.

(** How a slice bound is brought into [0 .. len]: a negative bound counts
    from the end. *)
Definition clamp_index (len i : Z) : Z :=
  if (i <? 0)%Z then Z.max (i + len) 0 else Z.min i len.

(** [s[a:b]]. *)
Definition slice (s : string) (a b : Z) : string :=
  let len := Z.of_nat (String.length s) in
  let lo := clamp_index len a in
  let hi := clamp_index len b in
  take (Z.to_nat (hi - lo)) (drop (Z.to_nat lo) s).

(** [c.isspace()] for a code point below 256. *)
Definition isspace (c : ascii) : bool :=
  let n := nat_of_ascii c in
  ((9 <=? n) && (n <=? 13) || (28 <=? n) && (n <=? 32)
   || (n =? 133) || (n =? 160))%nat.

(** [s.lstrip()]. *)
Fixpoint lstrip (s : string) : string :=
  match s with
  | EmptyString => EmptyString
  | String c s' => if isspace c then lstrip s' else s
  end.

(** [s.rstrip()]. *)
Fixpoint rstrip (s : string) : string :=
  match s with
  | EmptyString => EmptyString
  | String c s' =>
      match rstrip s' with
      | EmptyString => if isspace c then EmptyString else String c EmptyString
      | r => String c r
      end
  end.

(** [s.strip()]. *)
Definition strip (s : string) : string := rstrip (lstrip s).

(** [str(z)] for an [int]. *)
Definition of_int (z : Z) : string := NilEmpty.string_of_int (Z.to_int z).

End PyStr.

(* ================================================================== *)
(** ** The dictionary built by the extractor *)
(* ================================================================== *)

(** [versions]: tag name to value, in insertion order. *)
Definition dict : Type := list (string * string).

(** [d[k] = v]: an existing key keeps its place. *)
Fixpoint dict_set (d : dict) (k v : string) : dict :=
  match d with
  | [] => [(k, v)]
  | (k', v') :: d' =>
      if k' =? k then (k, v) :: d' else (k', v') :: dict_set d' k v
  end.

(** [d.get(k)]. *)
Fixpoint dict_get (d : dict) (k : string) : option string :=
  match d with
  | [] => None
  | (k', v') :: d' => if k' =? k then Some v' else dict_get d' k
  end.

(* ================================================================== *)
(** ** Version extractor *)
(* ================================================================== *)

Definition start_tag (tag : string) : string := "<" ++ tag ++ ">".
Definition end_tag (tag : string) : string := "</" ++ tag ++ ">".

(** One iteration of [for tag in version_tags]. *)
Definition scan_tag (pom_xml_content : string) (versions : dict)
    (tag : string) : dict :=
  let start_index := PyStr.find pom_xml_content (start_tag tag) in
  let end_index := PyStr.find pom_xml_content (end_tag tag) in
  if negb (start_index =? -1)%Z && negb (end_index =? -1)%Z then
    let version_value :=
      PyStr.strip
        (PyStr.slice pom_xml_content
           (start_index + Z.of_nat (String.length (start_tag tag)))
           end_index) in
    dict_set versions tag version_value
  else versions.

(** [find_version_tags_from_pom]: [None] is what the function returns for an
    empty [versions].  The content is a [str] and the tags are a list of
    [str], so nothing in the body raises and the handler is never entered. *)
Definition find_version_tags_from_pom (pom_xml_content : string)
    (version_tags : list string) : option dict :=
  match fold_left (scan_tag pom_xml_content) version_tags [] with
  | [] => None
  | versions => Some versions
  end.

(** Names for the two parts of an iteration, used in the statements below:
    the guard, and the value stored when the guard holds. *)
Definition both_found (pom_xml_content tag : string) : bool :=
  negb (PyStr.find pom_xml_content (start_tag tag) =? -1)%Z
  && negb (PyStr.find pom_xml_content (end_tag tag) =? -1)%Z.

Definition version_value (pom_xml_content tag : string) : string :=
  PyStr.strip
    (PyStr.slice pom_xml_content
       (PyStr.find pom_xml_content (start_tag tag)
        + Z.of_nat (String.length (start_tag tag)))
       (PyStr.find pom_xml_content (end_tag tag))).

(* ================================================================== *)
(** ** JSON values and the Python operations the walker applies to them *)
(* ================================================================== *)

#[local] Set Warnings "-register-all".

(** A decoded JSON value.  [JObj] lists the items of the decoded dict in
    order; its keys are distinct. *)
Inductive json : Type :=
| JNull
| JBool (b : bool)
| JInt (z : Z)
| JStr (s : string)
| JArr (items : list json)
| JObj (fields : list (string * json)).

Inductive exn : Type :=
| TransportError (msg : string)  (* raised by [requests] or [raise_for_status] *)
| AttributeError
| TypeError
| KeyError (key : string).

(** A computation that returns a value or raises. *)
Definition result (A : Type) : Type := (exn + A)%type.

Definition ok {A} (a : A) : result A := inr a.
Definition raise {A} (e : exn) : result A := inl e.

Definition rbind {A B} (m : result A) (k : A -> result B) : result B :=
  match m with
  | inl e => inl e
  | inr a => k a
  end.

Notation "x <- m ;; k" := (rbind m (fun x => k))
  (at level 61, m at next level, right associativity).

Module Py.

Fixpoint lookup (fields : list (string * json)) (key : string) : option json :=
  match fields with
  | [] => None
  | (k, v) :: rest => if k =? key then Some v else lookup rest key
  end.

(** [v.get(key, default)]: only a dict has the method. *)
Definition get (v : json) (key : string) (default : json) : result json :=
  match v with
  | JObj fields =>
      ok (match lookup fields key with Some x => x | None => default end)
  | _ => raise AttributeError
  end.

(** [v[key]] for a string [key]. *)
Definition getitem (v : json) (key : string) : result json :=
  match v with
  | JObj fields =>
      match lookup fields key with
      | Some x => ok x
      | None => raise (KeyError key)
      end
  | _ => raise TypeError
  end.

Fixpoint chars (s : string) : list json :=
  match s with
  | EmptyString => []
  | String c s' => JStr (String c EmptyString) :: chars s'
  end.

(** What [for x in v] runs over: the items of a list, the characters of a
    string, the keys of a dict; anything else is not iterable. *)
Definition iter (v : json) : result (list json) :=
  match v with
  | JArr items => ok items
  | JStr s => ok (chars s)
  | JObj fields => ok (map (fun kv => JStr (fst kv)) fields)
  | _ => raise TypeError
  end.

(** Truth value of [v] in a condition. *)
Definition truthy (v : json) : bool :=
  match v with
  | JNull => false
  | JBool b => b
  | JInt z => negb (z =? 0)%Z
  | JStr s => negb (s =? EmptyString)
  | JArr items => match items with [] => false | _ => true end
  | JObj fields => match fields with [] => false | _ => true end
  end.

(** [v == s] for a string literal [s]. *)
Definition eq_str (v : json) (s : string) : bool :=
  match v with
  | JStr s' => s' =? s
  | _ => false
  end.

End Py.

(* ================================================================== *)
(** ** The remote API and the walker's state *)
(* ================================================================== *)

(** What [get_repo_data] gets for one request: an exception (transport
    failure, bad status) or the decoded body. *)
Inductive response : Type :=
| Fails (e : exn)
| Body (data : json).

(** What [fetch_file_content] gets for one request. *)
Inductive raw_response : Type :=
| RawFails (e : exn)
| RawText (text : string).

(** What the walk does, in order: the requests it sends, with the answer
    each one got, and the entries its [for] loops take; each with the depth
    of the [recursive_search] call that did it (0 for the call made by
    [find_pom_xml_in_repo]). *)
Inductive event : Type :=
| Request (depth : nat) (url : string) (answer : response)
| Visit (depth : nat) (entry : json).

(** [pom_files] is the list shared by all calls of [recursive_search]. *)
Record world : Type := mkWorld {
  trace : list event;
  pom_files : list json
}.

Definition record (ev : event) (w : world) : world :=
  mkWorld (trace w ++ [ev]) (pom_files w).

(** [pom_files.append(v)]. *)
Definition append_pom (v : json) (w : world) : world :=
  mkWorld (trace w) (pom_files w ++ [v]).

Definition requests (t : list event) : list string :=
  flat_map
    (fun ev => match ev with Request _ u _ => [u] | Visit _ _ => [] end) t.

Definition visited (t : list event) : list json :=
  flat_map
    (fun ev => match ev with Visit _ e => [e] | Request _ _ _ => [] end) t.

(** How a call ended: it returned, it raised, or the model ran out of fuel
    before the call ended. *)
Inductive status : Type :=
| Returned
| Raised (e : exn)
| OutOfFuel.

Definition walk : Type := world -> status * world.

(** Run [m], then [k] when [m] returned. *)
Definition andThen (m k : walk) : walk :=
  fun w => match m w with
           | (Returned, w') => k w'
           | other => other
           end.

(** Lift a computation that does not touch the state. *)
Definition lift {A} (m : result A) (k : A -> walk) : walk :=
  fun w => match m with
           | inl e => (Raised e, w)
           | inr a => k a w
           end.

Section Walker.

(** [str(v)] for a list or a dict; the walker only formats what the API
    sends, and the text Python prints for a container is left open. *)
Variable repr : json -> string.

(** The listing endpoint: the answer to a request may depend on the requests
    sent before it (given oldest first). *)
Variable server : list string -> string -> response.

(** [f"{v}"]. *)
Definition py_str (v : json) : string :=
  match v with
  | JNull => "None"
  | JBool true => "True"
  | JBool false => "False"
  | JInt z => PyStr.of_int z
  | JStr s => s
  | _ => repr v
  end.

(** [get_repo_data(url, username, password)]; the credentials are the same
    in every request and are part of [server]. *)
Definition get_repo_data (depth : nat) (url : string) (w : world)
  : response * world :=
  let answer := server (requests (trace w)) url in
  (answer, record (Request depth url answer) w).

(** The two arguments of [find_pom_xml_in_repo] that [recursive_search]
    closes over. *)
Variable api_url base_url : string.

(** The body of [for file_info in ...] for one entry; [search] is
    [recursive_search] at the next depth. *)
Definition visit_entry (search : string -> walk) (file_info : json) : walk :=
  match file_info with
  | JStr s =>
      if PyStr.endswith s "pom.xml"
      then fun w => (Returned, append_pom file_info w)
      else fun w => (Returned, w)
  | JObj _ =>
      lift (Py.getitem file_info "type") (fun ty =>
      if Py.eq_str ty "DIRECTORY" then
        lift (p <- Py.getitem file_info "path" ;; Py.getitem p "toString")
          (fun to_string =>
             let subdir_url := base_url ++ "/" ++ py_str to_string in
             search subdir_url)
      else
      if Py.eq_str ty "FILE" then
        lift (Py.getitem file_info "name") (fun name =>
        if Py.eq_str name "pom.xml" then
          lift (p <- Py.getitem file_info "path" ;; Py.getitem p "toString")
            (fun to_string w => (Returned, append_pom to_string w))
        else fun w => (Returned, w))
      else fun w => (Returned, w))
  | _ => fun w => (Returned, w)
  end.

(** The [for] loop over one page. *)
Fixpoint for_entries (search : string -> walk) (depth : nat)
    (entries : list json) : walk :=
  match entries with
  | [] => fun w => (Returned, w)
  | file_info :: rest =>
      andThen (fun w => visit_entry search file_info
                          (record (Visit depth file_info) w))
              (for_entries search depth rest)
  end.

(** [recursive_search(url)].  [url] is the loop variable: [None] after a
    last page.  One unit of fuel is used per page fetched.  Calls nest as
    deep as the directories do; the interpreter's limit on nested calls,
    past which Python raises [RecursionError], has no counterpart here, so
    what is said of a walk that returns holds for the program when the
    nesting stays inside that limit. *)
Fixpoint recursive_search (fuel depth : nat) (url : option string)
  : walk :=
  match url with
  | None | Some EmptyString => fun w => (Returned, w)   (* [while url] *)
  | Some u =>
      match fuel with
      | O => fun w => (OutOfFuel, w)
      | S fuel' => fun w =>
          let (resp, w1) := get_repo_data depth u w in
          match resp with
          | Fails e => (Raised e, w1)
          | Body data =>
              lift (vs <- Py.get data "values" (JArr []) ;; Py.iter vs)
                (fun entries =>
                 andThen
                   (for_entries
                      (fun sub => recursive_search fuel' (S depth) (Some sub))
                      depth entries)
                   (lift (Py.get data "isLastPage" JNull) (fun last =>
                    if Py.truthy last then
                      recursive_search fuel' depth None
                    else
                      lift (Py.get data "nextPageStart" JNull)
                        (fun next_page_start =>
                         recursive_search fuel' depth
                           (Some (api_url ++ "?start="
                                    ++ py_str next_page_start))))))
                w1
          end
      end
  end.

(** [find_pom_xml_in_repo]: the list is returned only when the search
    returned. *)
Definition find_pom_xml_in_repo (fuel : nat) (t : list event)
  : status * world :=
  recursive_search fuel 0 (Some api_url) (mkWorld t []).

End Walker.

(* ================================================================== *)
(** ** Fetch, parse and the per-repository loop of [main] *)
(* ================================================================== *)

(** A data row of the report, after the header row
    [Project Key, Repo Slug, File Path, Version Tag, Version]. *)
Record row : Type := mkRow {
  row_project_key : string;
  row_repo_slug : string;
  row_file_path : json;
  row_tag : string;
  row_version : string
}.

(** The lines [main] and its tasks print. *)
Inductive line : Type :=
| ErrorProcessingRepo (project_key repo_slug : string) (e : exn)
| ErrorProcessingFile (project_key repo_slug : string) (pom_file : json)
    (e : exn)
| BlankLine.

(** What a run has produced so far: the listing requests sent, the rows
    written and the lines printed. *)
Record report : Type := mkReport {
  listing : list event;
  rows : list row;
  stdout : list line
}.

Section Orchestrator.

Variable repr : json -> string.
Variable server : list string -> string -> response.

(** The raw-content endpoint.  The tasks of one repository run on a pool of
    ten threads and share nothing; each one's fetch is answered by the URL
    it asks for. *)
Variable raw_server : string -> raw_response.

Definition process_repository (fuel : nat)
    (repo_slug project_key base_api_url : string) (t : list event)
  : status * world :=
  let stash_api_url :=
    base_api_url ++ "/projects/" ++ project_key ++ "/repos/" ++ repo_slug
      ++ "/files" in
  find_pom_xml_in_repo repr server stash_api_url stash_api_url fuel t.

Definition file_url (project_key repo_slug : string) (file_path : json)
    (base_api_url : string) : string :=
  base_api_url ++ "/projects/" ++ project_key ++ "/repos/" ++ repo_slug
    ++ "/browse/" ++ py_str repr file_path ++ "?raw".

Definition fetch_file_content (project_key repo_slug : string)
    (file_path : json) (base_api_url : string) : result string :=
  match raw_server (file_url project_key repo_slug file_path base_api_url) with
  | RawFails e => raise e
  | RawText text => ok text
  end.

(** Truth value of what [find_version_tags_from_pom] returned. *)
Definition versions_truthy (versions : option dict) : bool :=
  match versions with
  | Some (_ :: _) => true
  | _ => false
  end.

(** [fetch_and_parse_pom]: the value the task returns and what it prints. *)
Definition fetch_and_parse_pom (project_key repo_slug : string)
    (pom_file : json) (base_api_url : string) (version_tags : list string)
  : option (json * dict) * list line :=
  match fetch_file_content project_key repo_slug pom_file base_api_url with
  | inr pom_content =>
      let versions := find_version_tags_from_pom pom_content version_tags in
      match versions with
      | Some d => if versions_truthy versions
                  then (Some (pom_file, d), [])
                  else (None, [])
      | None => (None, [])
      end
  | inl e =>
      (None, [ErrorProcessingFile project_key repo_slug pom_file e])
  end.

(** The body of [for future in futures] for one result. *)
Definition write_result (project_key repo_slug : string)
    (result : option (json * dict)) : list row :=
  match result with
  | Some (pom_file, versions) =>
      match versions with
      | [] => []
      | _ =>
          map (fun tv => mkRow project_key repo_slug pom_file (fst tv) (snd tv))
            versions
      end
  | None => []
  end.

(** One iteration of [for project_key, repo_slug in project_keys_and_slugs]:
    [None] when the model ran out of fuel inside the walk.  The lines of the
    tasks are put in submission order. *)
Definition scan_repository (fuel : nat) (base_api_url : string)
    (version_tags : list string) (r : report) (repo : string * string)
  : option report :=
  let (project_key, repo_slug) := repo in
  match process_repository fuel repo_slug project_key base_api_url
          (listing r) with
  | (Returned, w) =>
      let futures :=
        map (fun pom_file =>
               fetch_and_parse_pom project_key repo_slug pom_file
                 base_api_url version_tags)
          (pom_files w) in
      Some (mkReport (trace w)
              (rows r
               ++ flat_map (fun f => write_result project_key repo_slug (fst f))
                    futures)
              (stdout r ++ flat_map snd futures ++ [BlankLine]))
  | (Raised e, w) =>
      Some (mkReport (trace w) (rows r)
              (stdout r ++ [ErrorProcessingRepo project_key repo_slug e]))
  | (OutOfFuel, _) => None
  end.

(** The loop over the configured repositories. *)
Fixpoint scan_all (fuel : nat) (base_api_url : string)
    (version_tags : list string) (repos : list (string * string))
    (r : report) : option report :=
  match repos with
  | [] => Some r
  | repo :: rest =>
      match scan_repository fuel base_api_url version_tags r repo with
      | Some r' => scan_all fuel base_api_url version_tags rest r'
      | None => None
      end
  end.

Definition base_api_url : string := "https://stash.cvent.net/rest/api/1.0".

Definition project_keys_and_slugs : list (string * string) :=
  [ ("EVT", "attendee-order");
    ("PT", "oss-event-reporting-datasource");
    ("PT", "sms");
    ("API", "universal-appointments");
    ("PT", "public-api");
    ("API", "universal-gamification");
    ("LS", "ls-venue-compsets");
    ("APPT", "appointments-worker");
    ("BT", "bt-test-utils");
    ("APPT", "appointments");
    ("LS", "ls-reports-datasource");
    ("CNF", "conference-es-search");
    ("LS", "ls-adr");
    ("CWITCH", "chime-shared-library") ].

Definition version_tags : list string :=
  ["mono-java.version"; "postgresql.version"; "mssql.version"; "maven-parent"].

(** [main]: the report starts with the header row only. *)
Definition main (fuel : nat) : option report :=
  scan_all fuel base_api_url version_tags project_keys_and_slugs
    (mkReport [] [] []).

End Orchestrator.

(* ================================================================== *)
(** ** Mock endpoints used by the examples *)
(* ================================================================== *)

Module Mock.

Definition dir_entry (path : string) : json :=
  JObj [("type", JStr "DIRECTORY"); ("path", JObj [("toString", JStr path)])].

Definition file_entry (name path : string) : json :=
  JObj [("type", JStr "FILE"); ("name", JStr name);
        ("path", JObj [("toString", JStr path)])].

Definition last_page (values : list json) : json :=
  JObj [("values", JArr values); ("isLastPage", JBool true)].

Definition more_page (values : list json) (next : Z) : json :=
  JObj [("values", JArr values); ("isLastPage", JBool false);
        ("nextPageStart", JInt next)].

(** A listing endpoint that answers by URL alone; an unknown URL is a bad
    status. *)
Fixpoint table (pages : list (string * json)) (sent : list string)
    (url : string) : response :=
  match pages with
  | [] => Fails (TransportError "404")
  | (u, data) :: rest => if u =? url then Body data else table rest sent url
  end.

Fixpoint raw_table (files : list (string * string)) (url : string)
  : raw_response :=
  match files with
  | [] => RawFails (TransportError "404")
  | (u, text) :: rest => if u =? url then RawText text else raw_table rest url
  end.

Definition no_repr (v : json) : string := EmptyString.

(** A repository whose directory [sub] has two pages. *)
Definition paged_subdir : list string -> string -> response :=
  table
    [ ("R", last_page [dir_entry "sub"; JStr "pom.xml"]);
      ("R/sub", more_page [JStr "sub/pom.xml"] 25);
      ("R/sub?start=25", last_page [JStr "sub/deep/pom.xml"]);
      ("R?start=25", last_page []) ].

(** A root listing whose two pages overlap in one entry. *)
Definition overlapping : list string -> string -> response :=
  table
    [ ("R", more_page [JStr "a/pom.xml"; file_entry "pom.xml" "b/pom.xml"] 1);
      ("R?start=1",
       last_page [file_entry "pom.xml" "b/pom.xml";
                  file_entry "README" "README"; JStr "c/pom.xmlx"]) ].

(** A root in two pages that overlap in one entry, the first with a
    directory among its five entries. *)
Definition overlapping_tree : list string -> string -> response :=
  table
    [ ("R", more_page [JStr "a/pom.xml"; dir_entry "m";
                       file_entry "pom.xml" "b/pom.xml"; JStr "notes.txt";
                       JStr "c/pom.xml"] 5);
      ("R/m", last_page [file_entry "pom.xml" "m/pom.xml"]);
      ("R?start=5",
       last_page [JStr "c/pom.xml"; file_entry "README" "README"]) ].

(** A root with a directory between two files. *)
Definition nested : list string -> string -> response :=
  table
    [ ("R", last_page [JStr "pom.xml"; dir_entry "m"; JStr "z/pom.xml"]);
      ("R/m", last_page [file_entry "pom.xml" "m/pom.xml"; dir_entry "m/n"]);
      ("R/m/n", last_page [JStr "m/n/pom.xml"]) ].

Definition files_url (project_key repo_slug : string) : string :=
  base_api_url ++ "/projects/" ++ project_key ++ "/repos/" ++ repo_slug
    ++ "/files".

Definition browse_url (project_key repo_slug path : string) : string :=
  base_api_url ++ "/projects/" ++ project_key ++ "/repos/" ++ repo_slug
    ++ "/browse/" ++ path ++ "?raw".

(** Two of the configured repositories answer; every other listing request
    gets a bad status. *)
Definition two_repos : list string -> string -> response :=
  table
    [ (files_url "EVT" "attendee-order",
       last_page [JStr "pom.xml"; JStr "core/pom.xml"; JStr "gone/pom.xml"]);
      (files_url "PT" "sms", last_page [file_entry "pom.xml" "pom.xml"]) ].

Definition two_repos_raw : string -> raw_response :=
  raw_table
    [ (browse_url "EVT" "attendee-order" "pom.xml",
       "<project><maven-parent> 7 </maven-parent>"
         ++ "<mono-java.version>2.1.5</mono-java.version></project>");
      (browse_url "EVT" "attendee-order" "core/pom.xml",
       "</maven-parent><maven-parent>");
      (browse_url "PT" "sms" "pom.xml",
       "<postgresql.version>42.3.1</postgresql.version>") ].


(** The states of the walk over [nested] around the directory [m] of the
    root page. *)
Definition nested_search (sub : string) : walk :=
  recursive_search no_repr nested "R" "R" 2 1 (Some sub).

Definition nested_w1 : world :=
  snd (for_entries no_repr "R" nested_search 0 [JStr "pom.xml"]
         (mkWorld [] [])).

Definition nested_w2 : world :=
  snd (nested_search "R/m" (record (Visit 0 (dir_entry "m")) nested_w1)).

Definition nested_w3 : world :=
  snd (for_entries no_repr "R" nested_search 0 [JStr "z/pom.xml"] nested_w2).

(** The walk of the first repository of [two_repos]. *)
Definition evt_walk : world :=
  snd (process_repository no_repr two_repos 3 "attendee-order" "EVT"
         base_api_url []).

(** A dict entry of a type the walker does not know. *)
Definition submodule_entry : json :=
  JObj [("type", JStr "SUBMODULE"); ("name", JStr "pom.xml");
        ("path", JObj [("toString", JStr "lib/pom.xml")])].

End Mock.

(* ================================================================== *)
(** ** Vocabulary of the statements *)
(* ================================================================== *)

(** [sub] occurs in [s] at offset [i]. *)
Definition occurs_at (i : nat) (s sub : string) : Prop :=
  exists pre post, s = pre ++ sub ++ post /\ String.length pre = i.

Definition occurs (s sub : string) : Prop := exists i, occurs_at i s sub.

(** Vocabulary for what trimming leaves. *)
Fixpoint all_space (s : string) : bool :=
  match s with
  | EmptyString => true
  | String c s' => PyStr.isspace c && all_space s'
  end.

Definition first_char (s : string) : option ascii :=
  match s with
  | EmptyString => None
  | String c _ => Some c
  end.

Fixpoint last_char (s : string) : option ascii :=
  match s with
  | EmptyString => None
  | String c EmptyString => Some c
  | String _ s' => last_char s'
  end.

Definition not_space (c : option ascii) : Prop :=
  match c with
  | Some c => PyStr.isspace c = false
  | None => True
  end.

(** [value] is the trimmed text enclosed by an opening and a closing marker
    of [tag] somewhere in [content]. *)
Definition enclosed (content tag value : string) : Prop :=
  exists pre mid post,
    content = pre ++ start_tag tag ++ mid ++ end_tag tag ++ post
    /\ value = PyStr.strip mid.

(** [file_info['path']['toString']]. *)
Definition entry_path (file_info : json) : result json :=
  p <- Py.getitem file_info "path" ;; Py.getitem p "toString".

(** The entries that name a build descriptor: a plain string ending with
    [pom.xml], or a dict of type [FILE] whose name is [pom.xml]. *)
Definition is_pom_entry (e : json) : bool :=
  match e with
  | JStr s => PyStr.endswith s "pom.xml"
  | JObj fields =>
      match Py.lookup fields "type", Py.lookup fields "name" with
      | Some ty, Some name => Py.eq_str ty "FILE" && Py.eq_str name "pom.xml"
      | _, _ => false
      end
  | _ => false
  end.

(** The path such an entry stands for: the string itself, or the dict's
    [path.toString]. *)
Definition path_of (e : json) : json :=
  match e with
  | JObj _ => match entry_path e with inr p => p | inl _ => JNull end
  | _ => e
  end.

Definition discovered (e : json) : list json :=
  if is_pom_entry e then [path_of e] else [].

(** A dict of type [DIRECTORY] and the path it carries. *)
Definition directory_path (e : json) : option json :=
  match e with
  | JObj fields =>
      match Py.lookup fields "type" with
      | Some ty =>
          if Py.eq_str ty "DIRECTORY"
          then match entry_path e with inr p => Some p | inl _ => None end
          else None
      | None => None
      end
  | _ => None
  end.

(** The entries that are neither a plain string nor a dict, and the dicts
    whose type tag is neither [DIRECTORY] nor [FILE]. *)
Definition ignored (e : json) : bool :=
  match e with
  | JStr _ => false
  | JObj fields =>
      match Py.lookup fields "type" with
      | Some ty => negb (Py.eq_str ty "DIRECTORY") && negb (Py.eq_str ty "FILE")
      | None => false
      end
  | _ => true
  end.

Definition event_depth (ev : event) : nat :=
  match ev with
  | Request depth _ _ => depth
  | Visit depth _ => depth
  end.

(** The requests of a trace as (depth, URL) pairs. *)
Definition sent (t : list event) : list (nat * string) :=
  flat_map
    (fun ev => match ev with Request d u _ => [(d, u)] | Visit _ _ => [] end)
    t.

(** The answers to the requests that calls at [depth] sent. *)
Definition level_pages (depth : nat) (t : list event) : list response :=
  flat_map
    (fun ev => match ev with
               | Request d _ answer => if d =? depth then [answer] else []
               | Visit _ _ => []
               end)%nat
    t.

(** The answer is a page that says it is the last one. *)
Definition is_last_page (answer : response) : bool :=
  match answer with
  | Body data =>
      match Py.get data "isLastPage" JNull with
      | inr last => Py.truthy last
      | inl _ => false
      end
  | Fails _ => false
  end.

(** Every event of [t] comes from a call at [depth] or deeper. *)
Definition deeper (depth : nat) (t : list event) : Prop :=
  Forall (fun ev => depth <= event_depth ev) t.

(** A chain of pages read to its end: the last answer is a last page and no
    answer before it is. *)
Definition drained (pages : list response) : Prop :=
  exists before answer,
    pages = (before ++ [answer])%list
    /\ is_last_page answer = true
    /\ Forall (fun a => is_last_page a = false) before.

(** [w'] is [w] after more of the walk: the trace grew by [t] and the list
    by the paths of the pom entries visited in [t]. *)
Definition grows_by (t : list event) (w w' : world) : Prop :=
  trace w' = (trace w ++ t)%list
  /\ pom_files w' = (pom_files w ++ flat_map discovered (visited t))%list.

(** What a call of the search at depth [dp] is known to do when it
    returns. *)
Definition search_spec (dp : nat) (search : string -> walk) : Prop :=
  forall sub w1 w2, search sub w1 = (Returned, w2) ->
                    exists t, grows_by t w1 w2 /\ deeper dp t.

(** The rows that the tasks of [files] bring to the report. *)
Definition task_rows (repr : json -> string)
    (raw_server : string -> raw_response)
    (project_key repo_slug base_api_url : string) (version_tags : list string)
    (files : list json) : list row :=
  flat_map
    (fun pom_file =>
       write_result project_key repo_slug
         (fst (fetch_and_parse_pom repr raw_server project_key repo_slug
                 pom_file base_api_url version_tags)))
    files.

(** The content that was fetched for the file of a row. *)
Definition fetched_for (repr : json -> string)
    (raw_server : string -> raw_response) (base_api_url : string) (r : row)
    (content : string) : Prop :=
  raw_server
    (file_url repr (row_project_key r) (row_repo_slug r) (row_file_path r)
       base_api_url) = RawText content.

(** The row's value is the trimmed text between a pair of markers of its tag
    in the content fetched for its file. *)
Definition row_enclosed (repr : json -> string)
    (raw_server : string -> raw_response) (base_api_url : string) (r : row)
  : Prop :=
  exists content,
    fetched_for repr raw_server base_api_url r content
    /\ enclosed content (row_tag r) (row_version r).

(** The row's value is the trimmed slice between the first opening marker
    and the first closing marker of its tag in the content fetched for its
    file; it is the text the two enclose when the first opening marker ends
    at or before the start of the first closing marker. *)
Definition row_from_first_markers (repr : json -> string)
    (raw_server : string -> raw_response) (base_api_url : string)
    (tags : list string) (r : row) : Prop :=
  exists content,
    fetched_for repr raw_server base_api_url r content
    /\ In (row_tag r) tags
    /\ PyStr.find content (start_tag (row_tag r)) <> (-1)%Z
    /\ PyStr.find content (end_tag (row_tag r)) <> (-1)%Z
    /\ row_version r = version_value content (row_tag r)
    /\ ((PyStr.find content (start_tag (row_tag r))
         + Z.of_nat (String.length (start_tag (row_tag r)))
         <= PyStr.find content (end_tag (row_tag r)))%Z ->
        enclosed content (row_tag r) (row_version r)).

(** The call ended inside the fuel it was given. *)
Definition ended (st : status) : Prop := st <> OutOfFuel.

(** The listing URL of a repository. *)
Definition stash_files_url (base_api_url : string) (repo : string * string)
  : string :=
  base_api_url ++ "/projects/" ++ fst repo ++ "/repos/" ++ snd repo
    ++ "/files".

(** The walks of the repositories of a run, in turn: each one starts with
    the listing requests sent by the walks before it. *)
Fixpoint walks (repr : json -> string)
    (server : list string -> string -> response) (fuel : nat)
    (base_api_url : string) (repos : list (string * string))
    (t : list event) : list (status * world) :=
  match repos with
  | [] => []
  | (project_key, repo_slug) :: rest =>
      let outcome :=
        process_repository repr server fuel repo_slug project_key
          base_api_url t in
      outcome :: walks repr server fuel base_api_url rest
                   (trace (snd outcome))
  end.

(** The rows the report gets for a repository, by how its walk ended: the
    rows of the tasks of the files found when the walk returned, none when
    it raised. *)
Definition repo_rows (repr : json -> string)
    (raw_server : string -> raw_response) (base_api_url : string)
    (version_tags : list string)
    (scanned : (string * string) * (status * world)) : list row :=
  match scanned with
  | ((project_key, repo_slug), (Returned, w)) =>
      task_rows repr raw_server project_key repo_slug base_api_url
        version_tags (pom_files w)
  | _ => []
  end.

(** The lines printed for it: the lines of the tasks and then a blank line
    when the walk returned, the error line of the repository when it
    raised. *)
Definition repo_lines (repr : json -> string)
    (raw_server : string -> raw_response) (base_api_url : string)
    (version_tags : list string)
    (scanned : (string * string) * (status * world)) : list line :=
  match scanned with
  | ((project_key, repo_slug), (Returned, w)) =>
      (flat_map
         (fun pom_file =>
            snd (fetch_and_parse_pom repr raw_server project_key repo_slug
                   pom_file base_api_url version_tags))
         (pom_files w)
       ++ [BlankLine])%list
  | ((project_key, repo_slug), (Raised e, _)) =>
      [ErrorProcessingRepo project_key repo_slug e]
  | (_, (OutOfFuel, _)) => []
  end.

(* ================================================================== *)
(** ** Further vocabulary: the extractor's result, listings, failures *)
(* ================================================================== *)

(** The elements of [l] not in [seen], each at its first occurrence. *)
Fixpoint first_occurrences (seen l : list string) : list string :=
  match l with
  | [] => []
  | t :: l' =>
      if existsb (String.eqb t) seen then first_occurrences seen l'
      else t :: first_occurrences (seen ++ [t])%list l'
  end.

(** The tags the extractor stores, in the order it stores them. *)
Definition stored_tags (content : string) (tags : list string) : list string :=
  first_occurrences [] (filter (both_found content) tags).

(** The pair the extractor stores for a tag. *)
Definition stored_pair (content tag : string) : string * string :=
  (tag, version_value content tag).

(** What [data.get('values', [])] gives to the [for] loop. *)
Definition page_entries (data : json) : result (list json) :=
  vs <- Py.get data "values" (JArr []) ;; Py.iter vs.

(** The entries of an answer, when the answer is a page whose [values] the
    [for] loop can go through. *)
Definition answer_entries (answer : response) : option (list json) :=
  match answer with
  | Body data =>
      match page_entries data with
      | inr entries => Some entries
      | inl _ => None
      end
  | Fails _ => None
  end.

(** The entries of a run of answers, page after page, when every one of
    them is such a page. *)
Fixpoint pages_entries (pages : list response) : option (list json) :=
  match pages with
  | [] => Some []
  | answer :: rest =>
      match answer_entries answer, pages_entries rest with
      | Some entries, Some more => Some (entries ++ more)%list
      | _, _ => None
      end
  end.

(** The answers to the requests of a trace, whatever the depth. *)
Definition answers (t : list event) : list response :=
  flat_map
    (fun ev => match ev with Request _ _ answer => [answer] | Visit _ _ => [] end)
    t.

(** The entries that the loops of the calls at [depth] took. *)
Definition visits_at (depth : nat) (t : list event) : list json :=
  flat_map
    (fun ev => match ev with
               | Visit d e => if d =? depth then [e] else []
               | Request _ _ _ => []
               end)%nat
    t.

(** [entries] at [depth], nothing at another depth. *)
Definition at_depth (depth : nat) (entries : list json) (d : nat)
  : list json :=
  if (d =? depth)%nat then entries else [].

(** What [t] did with the pages it received, for a part of the walk that
    started with [entries] of a page of [depth] still to go through: at
    every depth the answers are readable pages and the loops took, in order,
    the entries still to go through and then the entries of those pages; the
    entries taken are, up to their order, the entries still to go through
    and the entries of all the pages received. *)
Definition reads (depth : nat) (entries : list json) (t : list event)
  : Prop :=
  (forall d, exists es,
      pages_entries (level_pages d t) = Some es
      /\ visits_at d t = (at_depth depth entries d ++ es)%list)
  /\ exists all,
       pages_entries (answers t) = Some all
       /\ Permutation (visited t) (entries ++ all)%list.

(** What a call of the search at depth [dp] is known to do with the pages
    it receives when it returns. *)
Definition search_reads (dp : nat) (search : string -> walk) : Prop :=
  forall sub w1 w2, search sub w1 = (Returned, w2) ->
                    exists t, trace w2 = (trace w1 ++ t)%list
                              /\ deeper dp t /\ reads dp [] t.

(** An endpoint that serves a flat listing in pages: from [url], after the
    requests [sent], it answers with the [pages] one after the other, each
    a list of plain names with the start of the next page, and then with a
    last page of the names [last]. *)
Fixpoint flat_listing (repr : json -> string)
    (server : list string -> string -> response) (api_url : string)
    (sent : list string) (url : string) (pages : list (list string * json))
    (last : list string) : Prop :=
  match pages with
  | [] =>
      exists data,
        server sent url = Body data
        /\ page_entries data = inr (map JStr last)
        /\ is_last_page (Body data) = true
  | (names, next) :: rest =>
      exists data,
        server sent url = Body data
        /\ page_entries data = inr (map JStr names)
        /\ is_last_page (Body data) = false
        /\ Py.get data "nextPageStart" JNull = inr next
        /\ flat_listing repr server api_url (sent ++ [url])%list
             (api_url ++ "?start=" ++ py_str repr next) rest last
  end.

(** The names of a flat listing that end with [pom.xml]. *)
Definition pom_names (names : list string) : list string :=
  filter (fun name => PyStr.endswith name "pom.xml") names.

(** The exception that handling an entry raises before any recursive
    search, if it raises one. *)
Definition entry_error (e : json) : option exn :=
  match e with
  | JObj _ =>
      match Py.getitem e "type" with
      | inl ex => Some ex
      | inr ty =>
          if Py.eq_str ty "DIRECTORY" then
            match entry_path e with inl ex => Some ex | inr _ => None end
          else if Py.eq_str ty "FILE" then
            match Py.getitem e "name" with
            | inl ex => Some ex
            | inr name =>
                if Py.eq_str name "pom.xml" then
                  match entry_path e with inl ex => Some ex | inr _ => None end
                else None
            end
          else None
      end
  | _ => None
  end.

(** The exception that an answer raises in [get_repo_data] or when its
    [values] are taken, if it raises one. *)
Definition page_error (answer : response) : option exn :=
  match answer with
  | Fails e => Some e
  | Body data =>
      match page_entries data with
      | inl e => Some e
      | inr _ => None
      end
  end.

Definition event_error (ev : event) : option exn :=
  match ev with
  | Request _ _ answer => page_error answer
  | Visit _ e => entry_error e
  end.

(** The line [main] prints for a repository whose walk raised [e]. *)
Definition repo_error_line (e : exn) (repo : string * string) : line :=
  ErrorProcessingRepo (fst repo) (snd repo) e.

(** The rows that a file with the given content brings to the report. *)
Definition content_rows (project_key repo_slug : string) (pom_file : json)
    (tags : list string) (content : string) : list row :=
  map (fun tag => mkRow project_key repo_slug pom_file tag
                    (version_value content tag))
    (stored_tags content tags).

(** [w'] is [w] after a part of the walk that ended with the exception
    [ex]: the last thing done is the one that raised it, and the list grew by
    the paths of the pom entries visited before. *)
Definition stops_at (ex : exn) (w w' : world) : Prop :=
  exists t ev,
    trace w' = (trace w ++ t ++ [ev])%list
    /\ event_error ev = Some ex
    /\ pom_files w' = (pom_files w ++ flat_map discovered (visited t))%list.

(** The state after the loop over a page of plain names. *)
Definition after_names (depth : nat) (names : list string) (w : world)
  : world :=
  mkWorld (trace w ++ map (fun name => Visit depth (JStr name)) names)%list
    (pom_files w ++ map JStr (pom_names names))%list.

(** The URL of the page that follows a page of a flat listing. *)
Definition next_page_url (repr : json -> string) (api_url : string)
    (page : list string * json) : string :=
  api_url ++ "?start=" ++ py_str repr (snd page).

(** An endpoint whose answer depends on the URL asked and on nothing sent
    before. *)
Definition answers_by_url (server : list string -> string -> response)
  : Prop :=
  forall sent1 sent2 url, server sent1 url = server sent2 url.

(** Two runs of a part of the walk ended the same way with the same list. *)
Definition agree (r1 r2 : status * world) : Prop :=
  fst r1 = fst r2 /\ pom_files (snd r1) = pom_files (snd r2).

(** The rows a repository gives when it is scanned alone, into an empty
    report. *)
Definition repo_rows_alone (repr : json -> string)
    (server : list string -> string -> response)
    (raw_server : string -> raw_response) (fuel : nat) (base_api_url : string)
    (version_tags : list string) (repo : string * string) : list row :=
  match scan_repository repr server raw_server fuel base_api_url version_tags
          (mkReport [] [] []) repo with
  | Some r => rows r
  | None => []
  end.

(** A file tree as the listing endpoint shows it when every directory fits
    in one page: an entry that is not a directory, or a directory entry with
    the items of its page. *)
Inductive item : Type :=
| Leaf (e : json)
| Subdir (e : json) (children : list item).

Definition entry_of (i : item) : json :=
  match i with
  | Leaf e => e
  | Subdir e _ => e
  end.

(** The entries of a tree, depth first, a directory before what it holds. *)
Fixpoint entries_in_order (i : item) : list json :=
  match i with
  | Leaf e => [e]
  | Subdir e children => e :: flat_map entries_in_order children
  end.

(** The number of directory levels of a tree, and of a list of trees. *)
Fixpoint height (i : item) : nat :=
  match i with
  | Leaf _ => 0
  | Subdir _ children =>
      S (fold_right (fun c n => Nat.max (height c) n) 0 children)
  end.

Definition levels (items : list item) : nat :=
  fold_right (fun c n => Nat.max (height c) n) 0 items.

(** The endpoint serves the tree: a leaf is an entry that is no directory
    and can be handled; a directory entry carries a path, and the URL made
    of the base URL and that path is always answered with one last page
    that lists the entries of the directory's items, each served in turn. *)
Fixpoint served (repr : json -> string)
    (server : list string -> string -> response) (base_url : string)
    (i : item) : Prop :=
  match i with
  | Leaf e => directory_path e = None /\ entry_error e = None
  | Subdir e children =>
      exists p data,
        directory_path e = Some p
        /\ (forall sent,
              server sent (base_url ++ "/" ++ py_str repr p) = Body data)
        /\ page_entries data = inr (map entry_of children)
        /\ is_last_page (Body data) = true
        /\ (fix all (cs : list item) : Prop :=
              match cs with
              | [] => True
              | c :: cs' => served repr server base_url c /\ all cs'
              end) children
  end.

(** The endpoint serves the items as the one page of the root URL. *)
Definition root_served (repr : json -> string)
    (server : list string -> string -> response) (api_url base_url : string)
    (items : list item) : Prop :=
  exists data,
    (forall sent, server sent api_url = Body data)
    /\ page_entries data = inr (map entry_of items)
    /\ is_last_page (Body data) = true
    /\ Forall (served repr server base_url) items.

(** [url] is [root] followed by something. *)
Definition under (root url : string) : Prop := exists rest, url = root ++ rest.

(** [w'] is [w] after some requests, each to a URL under one of two
    roots. *)
Definition asks_under (api_url base_url : string) (w w' : world) : Prop :=
  exists t,
    trace w' = (trace w ++ t)%list
    /\ Forall (fun url => under api_url url \/ under base_url url)
         (requests t).

(** The lines [main] itself prints, one when it is done with a repository;
    the others are printed by the tasks. *)
Definition is_repo_line (l : line) : bool :=
  match l with
  | ErrorProcessingFile _ _ _ _ => false
  | ErrorProcessingRepo _ _ _ => true
  | BlankLine => true
  end.

(* ================================================================== *)
(** ** More mock endpoints *)
(* ================================================================== *)

Module MoreMock.
Import Mock.

(** A flat listing in two pages. *)
Definition flat_pages : list string -> string -> response :=
  table
    [ ("R", more_page [JStr "pom.xml"; JStr "README.md"] 2);
      ("R?start=2", last_page [JStr "a/pom.xml"; JStr "a/pom.xml.bak"]) ].

(** A page with its values and nothing else. *)
Definition bare_page : json := JObj [("values", JArr [JStr "pom.xml"])].

(** An endpoint that answers every request with [bare_page]. *)
Definition endless (sent : list string) (url : string) : response :=
  Body bare_page.

(** An endpoint that is down. *)
Definition down (sent : list string) (url : string) : response :=
  Fails (TransportError "503").

(** A root whose directory [m] cannot be listed. *)
Definition broken_subdir : list string -> string -> response :=
  table [ ("R", last_page [JStr "pom.xml"; dir_entry "m"; JStr "z/pom.xml"]) ].

(** A dict entry without a type. *)
Definition untyped_entry : json := JObj [("name", JStr "pom.xml")].

(** The report of a run over three of the configured repositories, the
    second of which cannot be listed. *)
Definition three_repos : list (string * string) :=
  [("EVT", "attendee-order"); ("PT", "oss-event-reporting-datasource");
   ("PT", "sms")].

Definition three_repos_report : report :=
  match scan_all no_repr two_repos two_repos_raw 3 base_api_url version_tags
          three_repos (mkReport [] [] []) with
  | Some r => r
  | None => mkReport [] [] []
  end.

(** The tree that [nested] serves. *)
Definition nested_tree : list item :=
  [ Leaf (JStr "pom.xml");
    Subdir (dir_entry "m")
      [ Leaf (file_entry "pom.xml" "m/pom.xml");
        Subdir (dir_entry "m/n") [Leaf (JStr "m/n/pom.xml")] ];
    Leaf (JStr "z/pom.xml") ].

End MoreMock.

(* ================================================================== *)
(** * Properties *)
(* ================================================================== *)

(** ** Substring search and slicing *)

Module PyStrFacts.
Import PyStr.

#[local] Arguments startswith : simpl never.

Lemma str_length_app (a b : string) :
  String.length (a ++ b) = String.length a + String.length b.
Proof. induction a as [|c a IH]; simpl; [reflexivity | now rewrite IH]. Qed.

Lemma str_app_assoc (a b c : string) : (a ++ b) ++ c = a ++ b ++ c.
Proof. induction a as [|x a IH]; simpl; [reflexivity | now rewrite IH]. Qed.

Lemma take_drop (n : nat) (s : string) : take n s ++ drop n s = s.
Proof.
  revert s; induction n as [|n IH]; intros [|c s]; simpl; try reflexivity.
  now rewrite IH.
Qed.

Lemma drop_drop (m n : nat) (s : string) : drop n (drop m s) = drop (m + n) s.
Proof.
  revert s; induction m as [|m IH]; intros s; simpl; [reflexivity|].
  destruct s as [|c s]; [now destruct n | apply IH].
Qed.

Lemma drop_app (a b : string) : drop (String.length a) (a ++ b) = b.
Proof. induction a as [|c a IH]; simpl; [now destruct b | exact IH]. Qed.

Lemma take_app (a b : string) : take (String.length a) (a ++ b) = a.
Proof. induction a as [|c a IH]; simpl; [now destruct b | now rewrite IH]. Qed.

Lemma length_drop (n : nat) (s : string) :
  String.length (drop n s) = String.length s - n.
Proof.
  revert s; induction n as [|n IH]; intros [|c s]; simpl; auto with arith.
Qed.

Lemma startswith_app (s p : string) :
  startswith s p = true <-> exists post, s = p ++ post.
Proof.
  unfold startswith; revert s; induction p as [|c p IH]; intros s; simpl.
  - split; [intros _; now exists s | intros _; now destruct s].
  - destruct s as [|d s]; [split; [discriminate | intros [post H]; discriminate]|].
    simpl; destruct (ascii_dec c d) as [->|Hne].
    + rewrite IH; split; intros [post H]; exists post.
      * now rewrite H.
      * now injection H.
    + split; [discriminate | intros [post H]; injection H; congruence].
Qed.

Lemma occurs_at_startswith (i : nat) (s sub : string) :
  occurs_at i s sub <->
  i <= String.length s /\ startswith (drop i s) sub = true.
Proof.
  split.
  - intros (pre & post & -> & <-); split.
    + rewrite str_length_app; lia.
    + rewrite drop_app; apply startswith_app; now exists post.
  - intros [Hi H]; apply startswith_app in H as [post H].
    exists (take i s), post; split.
    + now rewrite <- H, take_drop.
    + clear H; revert s Hi; induction i as [|i IH]; intros [|c s] Hi; simpl in *;
        try reflexivity; try lia.
      now rewrite IH by lia.
Qed.

(** [index_from] returns the first offset at which [sub] occurs. *)
Lemma index_from_some (i k : nat) (s sub : string) :
  index_from i s sub = Some k ->
  i <= k /\ occurs_at (k - i) s sub
  /\ forall j, j < k - i -> ~ occurs_at j s sub.
Proof.
  revert i; induction s as [|c s IH]; intros i; simpl.
  - destruct (startswith EmptyString sub) eqn:E; [|discriminate].
    intros [= <-]; rewrite Nat.sub_diag; repeat split; try lia.
    apply occurs_at_startswith; simpl; split; [lia | exact E].
  - destruct (startswith (String c s) sub) eqn:E.
    + intros [= <-]; rewrite Nat.sub_diag; repeat split; try lia.
      apply occurs_at_startswith; simpl; split; [lia | exact E].
    + intros H; apply IH in H as (Hle & Hocc & Hfirst).
      split; [lia|].
      replace (k - i) with (S (k - S i)) by lia; split.
      * apply occurs_at_startswith in Hocc as [Hl Hs].
        apply occurs_at_startswith; simpl; split; [lia | exact Hs].
      * intros [|j] Hj Hc.
        -- apply occurs_at_startswith in Hc as [_ Hc]; simpl in Hc; congruence.
        -- apply (Hfirst j); [lia|].
           apply occurs_at_startswith in Hc as [Hl Hs]; simpl in *.
           apply occurs_at_startswith; split; [lia | exact Hs].
Qed.

Lemma index_from_none (i : nat) (s sub : string) :
  index_from i s sub = None -> forall j, ~ occurs_at j s sub.
Proof.
  revert i; induction s as [|c s IH]; intros i; simpl.
  - destruct (startswith EmptyString sub) eqn:E; [discriminate|]; intros _ j Hc.
    apply occurs_at_startswith in Hc as [Hl Hs]; simpl in Hl.
    assert (j = 0) as -> by lia; simpl in Hs; congruence.
  - destruct (startswith (String c s) sub) eqn:E; [discriminate|].
    intros H [|j] Hc.
    + apply occurs_at_startswith in Hc as [_ Hc]; simpl in Hc; congruence.
    + apply (IH _ H j).
      apply occurs_at_startswith in Hc as [Hl Hs]; simpl in *.
      apply occurs_at_startswith; split; [lia | exact Hs].
Qed.

(** [find] answers [-1] or an offset. *)
Lemma find_range (s sub : string) :
  (find s sub = -1 \/ 0 <= find s sub)%Z.
Proof. unfold find; destruct (index_from 0 s sub); [right | left]; lia. Qed.

(** [find] answers [-1] exactly when [sub] does not occur in [s]. *)
Lemma find_absent (s sub : string) :
  find s sub = (-1)%Z <-> ~ occurs s sub.
Proof.
  unfold find; destruct (index_from 0 s sub) as [k|] eqn:E; split.
  - lia.
  - intros H; exfalso; apply H; exists (k - 0).
    now apply index_from_some in E.
  - intros _ [j Hj]; exact (index_from_none _ _ _ E j Hj).
  - reflexivity.
Qed.

(** Otherwise it answers the first offset at which [sub] occurs. *)
Lemma find_first (s sub : string) (i : Z) :
  find s sub = i -> i <> (-1)%Z ->
  occurs_at (Z.to_nat i) s sub
  /\ (0 <= i)%Z
  /\ forall j, j < Z.to_nat i -> ~ occurs_at j s sub.
Proof.
  unfold find; destruct (index_from 0 s sub) as [k|] eqn:E; [|congruence].
  intros <- _; rewrite Nat2Z.id.
  apply index_from_some in E as (_ & Hocc & Hfirst).
  rewrite Nat.sub_0_r in *; repeat split; [assumption | lia | assumption].
Qed.

Lemma find_present (s sub : string) :
  occurs s sub -> find s sub <> (-1)%Z.
Proof. intros H E; now apply find_absent in E. Qed.

(** A slice with bounds inside the string, in order. *)
Lemma slice_inside (s : string) (a b : nat) :
  a <= b -> b <= String.length s ->
  slice s (Z.of_nat a) (Z.of_nat b) = take (b - a) (drop a s).
Proof.
  intros Hab Hb; unfold slice, clamp_index.
  destruct (Z.ltb_spec (Z.of_nat a) 0); [lia|].
  destruct (Z.ltb_spec (Z.of_nat b) 0); [lia|].
  rewrite !Z.min_l by lia.
  now rewrite <- Nat2Z.inj_sub, !Nat2Z.id by lia.
Qed.

(** A slice whose upper bound is not above its lower bound is empty. *)
Lemma slice_crossed (s : string) (a b : Z) :
  (0 <= b <= a)%Z -> slice s a b = EmptyString.
Proof.
  intros H; unfold slice, clamp_index.
  destruct (Z.ltb_spec a 0); [lia|]; destruct (Z.ltb_spec b 0); [lia|].
  replace (Z.to_nat _) with 0 by lia.
  now destruct (drop _ s).
Qed.

(** The text between an occurrence of [open] at [i] and an occurrence of
    [close] at [j] that starts at or after the end of [open]. *)
Lemma slice_between (s open close : string) (i j : nat) :
  occurs_at i s open -> occurs_at j s close ->
  i + String.length open <= j ->
  exists pre post,
    s = pre ++ open
          ++ slice s (Z.of_nat (i + String.length open)) (Z.of_nat j)
          ++ close ++ post
    /\ String.length pre = i.
Proof.
  intros (pre & rest & Hs & Hpre) Hc Hij.
  pose proof Hc as (pre' & post & Hs' & Hpre').
  assert (Hj : j <= String.length s)
    by (rewrite Hs', str_length_app; lia).
  exists pre, post; split; [|exact Hpre].
  rewrite slice_inside by lia.
  set (k := i + String.length open) in *.
  assert (Hrest : drop k s = rest).
  { subst k; rewrite <- Hpre, Hs, <- drop_drop, drop_app. apply drop_app. }
  assert (Hdj : drop (j - k) rest = close ++ post).
  { rewrite <- Hrest, drop_drop.
    replace (k + (j - k)) with j by lia.
    rewrite <- Hpre', Hs' at 1. apply drop_app. }
  rewrite Hrest, <- Hdj, take_drop. exact Hs.
Qed.

Lemma strip_empty : strip EmptyString = EmptyString.
Proof. reflexivity. Qed.

Lemma lstrip_spec (s : string) :
  exists l, s = l ++ lstrip s /\ all_space l = true
            /\ not_space (first_char (lstrip s)).
Proof.
  induction s as [|c s (l & Hs & Hl & Hf)]; simpl.
  - now exists EmptyString.
  - destruct (isspace c) eqn:E.
    + exists (String c l); simpl; rewrite E, Hl; repeat split; auto.
      now rewrite <- Hs.
    + exists EmptyString; simpl; auto.
Qed.

Lemma rstrip_spec (s : string) :
  exists r, s = rstrip s ++ r /\ all_space r = true
            /\ not_space (last_char (rstrip s)).
Proof.
  induction s as [|c s (r & Hs & Hr & Hl)]; simpl.
  - now exists EmptyString.
  - destruct (rstrip s) as [|d t] eqn:E.
    + simpl in Hs; subst r; destruct (isspace c) eqn:Ec.
      * exists (String c s); simpl; rewrite Ec, Hr; auto.
      * exists s; simpl; auto.
    + exists r; simpl in *; rewrite <- Hs; auto.
Qed.

Lemma rstrip_first (s : string) :
  not_space (first_char s) -> first_char (rstrip s) = first_char s.
Proof.
  destruct s as [|c s]; simpl; [reflexivity|]; intros Hc.
  destruct (rstrip s); [now rewrite Hc | reflexivity].
Qed.

(** What [strip] leaves: the string without a run of whitespace at each end,
    and with no whitespace at either end of what is left. *)
Lemma strip_spec (s : string) :
  exists l r,
    s = l ++ strip s ++ r
    /\ all_space l = true /\ all_space r = true
    /\ not_space (first_char (strip s))
    /\ not_space (last_char (strip s)).
Proof.
  destruct (lstrip_spec s) as (l & Hs & Hl & Hf).
  destruct (rstrip_spec (lstrip s)) as (r & Hm & Hr & Hlast).
  exists l, r; unfold strip; repeat split; auto.
  - now rewrite <- Hm.
  - now rewrite rstrip_first.
Qed.

End PyStrFacts.

(** ** The version extractor *)

Section ExtractorFacts.
Import PyStr PyStrFacts.

Lemma scan_tag_eq (content : string) (d : dict) (tag : string) :
  scan_tag content d tag =
  if both_found content tag
  then dict_set d tag (version_value content tag) else d.
Proof. reflexivity. Qed.

Lemma both_found_false (content tag : string) :
  both_found content tag = false <->
  (find content (start_tag tag) = -1 \/ find content (end_tag tag) = -1)%Z.
Proof.
  unfold both_found; rewrite andb_false_iff, !negb_false_iff, !Z.eqb_eq.
  reflexivity.
Qed.

Lemma both_found_true (content tag : string) :
  both_found content tag = true <->
  (find content (start_tag tag) <> -1 /\ find content (end_tag tag) <> -1)%Z.
Proof.
  unfold both_found; rewrite andb_true_iff, !negb_true_iff, !Z.eqb_neq.
  reflexivity.
Qed.

Lemma dict_get_set (d : dict) (k v k' : string) :
  dict_get (dict_set d k v) k' = if k =? k' then Some v else dict_get d k'.
Proof.
  induction d as [|[k0 v0] d IH]; simpl.
  - reflexivity.
  - destruct (String.eqb_spec k0 k) as [->|Hne]; simpl.
    + now destruct (k =? k').
    + rewrite IH. destruct (String.eqb_spec k0 k') as [->|]; [|reflexivity].
      destruct (String.eqb_spec k k'); [congruence | reflexivity].
Qed.

Lemma dict_set_nonempty (d : dict) (k v : string) : dict_set d k v <> [].
Proof. destruct d as [|[k0 v0] d]; simpl; [|destruct (k0 =? k)]; discriminate. Qed.

(** What the loop leaves under [tag]: the value of the last iteration that
    stored it, which is the same in every iteration. *)
Lemma scan_all_tags_get (content : string) (tags : list string) (d : dict)
    (tag : string) :
  dict_get (fold_left (scan_tag content) tags d) tag =
  if existsb (String.eqb tag) tags && both_found content tag
  then Some (version_value content tag)
  else dict_get d tag.
Proof.
  revert d; induction tags as [|t tags IH]; intros d; simpl; [reflexivity|].
  rewrite IH, scan_tag_eq.
  destruct (String.eqb_spec tag t) as [<-|Hne]; simpl.
  - destruct (both_found content tag) eqn:B.
    + rewrite dict_get_set, String.eqb_refl, andb_true_r.
      now destruct (existsb _ tags).
    + now rewrite !andb_false_r.
  - destruct (existsb _ tags && both_found content tag); [reflexivity|].
    destruct (both_found content t); [|reflexivity].
    rewrite dict_get_set.
    destruct (String.eqb_spec t tag); [congruence | reflexivity].
Qed.

Lemma existsb_eqb_In (tag : string) (tags : list string) :
  existsb (String.eqb tag) tags = true <-> In tag tags.
Proof.
  rewrite existsb_exists; split.
  - intros (x & Hx & E); apply String.eqb_eq in E; now subst.
  - intros H; exists tag; split; [assumption | apply String.eqb_refl].
Qed.

Lemma scan_all_tags_nonempty (content : string) (tags : list string)
    (d : dict) :
  d <> [] -> fold_left (scan_tag content) tags d <> [].
Proof.
  revert d; induction tags as [|t tags IH]; intros d Hd; simpl; [assumption|].
  apply IH; rewrite scan_tag_eq.
  destruct (both_found content t); [apply dict_set_nonempty | assumption].
Qed.

Lemma scan_all_tags_empty (content : string) (tags : list string) :
  fold_left (scan_tag content) tags [] = [] <->
  forall tag, In tag tags -> both_found content tag = false.
Proof.
  induction tags as [|t tags IH]; simpl.
  - split; [intros _ tag [] | reflexivity].
  - rewrite scan_tag_eq; destruct (both_found content t) eqn:B; split.
    + intros H; exfalso; revert H; apply scan_all_tags_nonempty; discriminate.
    + intros H; rewrite (H t) in B by now left. discriminate.
    + intros H tag [<-|Hin]; [assumption | now apply IH].
    + intros H; apply IH; intros tag Hin; apply H; now right.
Qed.

(** The result as a function of the lookups. *)
Lemma find_version_tags_from_pom_get (content : string) (tags : list string)
    (versions : dict) (tag : string) :
  find_version_tags_from_pom content tags = Some versions ->
  dict_get versions tag =
  if existsb (String.eqb tag) tags && both_found content tag
  then Some (version_value content tag) else None.
Proof.
  unfold find_version_tags_from_pom; intros H.
  pose proof (scan_all_tags_get content tags [] tag) as G; simpl in G.
  rewrite <- G.
  destruct (fold_left (scan_tag content) tags []);
    [discriminate | now injection H as <-].
Qed.

Lemma find_version_tags_from_pom_none (content : string) (tags : list string) :
  find_version_tags_from_pom content tags = None <->
  forall tag, In tag tags -> both_found content tag = false.
Proof.
  rewrite <- scan_all_tags_empty; unfold find_version_tags_from_pom.
  destruct (fold_left (scan_tag content) tags []); split; congruence.
Qed.

Lemma find_version_tags_from_pom_some (content : string) (tags : list string)
    (tag : string) :
  In tag tags -> both_found content tag = true ->
  exists versions,
    find_version_tags_from_pom content tags = Some versions
    /\ dict_get versions tag = Some (version_value content tag).
Proof.
  intros Hin B.
  destruct (find_version_tags_from_pom content tags) as [versions|] eqn:E.
  - exists versions; split; [reflexivity|].
    rewrite (find_version_tags_from_pom_get _ _ _ _ E), B.
    now apply existsb_eqb_In in Hin as ->.
  - rewrite find_version_tags_from_pom_none in E. rewrite (E _ Hin) in B.
    discriminate.
Qed.

(** Every pair of the result was stored by an iteration whose guard held. *)
Lemma find_version_tags_from_pom_in (content : string) (tags : list string)
    (versions : dict) (tag value : string) :
  find_version_tags_from_pom content tags = Some versions ->
  In (tag, value) versions ->
  In tag tags /\ both_found content tag = true
  /\ value = version_value content tag.
Proof.
  unfold find_version_tags_from_pom; intros H Hin.
  assert (Hgen : forall d,
    In (tag, value) (fold_left (scan_tag content) tags d) ->
    In (tag, value) d
    \/ In tag tags /\ both_found content tag = true
       /\ value = version_value content tag).
  { clear H Hin; induction tags as [|t tags IH]; intros d; simpl; [now left|].
    intros H; apply IH in H as [H|(H1 & H2 & H3)]; [|right; auto].
    rewrite scan_tag_eq in H; destruct (both_found content t) eqn:B; [|now left].
    clear IH; induction d as [|[k0 v0] d IHd]; simpl in H.
    - destruct H as [[= <- <-]|[]]; right; auto.
    - destruct (k0 =? t).
      + destruct H as [[= <- <-]|H]; [right; auto | left; now right].
      + destruct H as [H|H]; [left; now left|].
        apply IHd in H as [H|H]; [left; now right | now right]. }
  assert (Hfold : In (tag, value) (fold_left (scan_tag content) tags []))
    by (destruct (fold_left (scan_tag content) tags []);
        [discriminate | now injection H as <-]).
  apply Hgen in Hfold as [[]|Hres]; exact Hres.
Qed.

(** C4: when both markers of a requested tag occur in the content, the
    extractor returns a dict that holds, under the tag, the trimmed slice of
    the content from the end of the first opening marker to the start of the
    first closing marker.  Trimmed means: the slice is a run of whitespace,
    the stored value, a run of whitespace, and the stored value neither
    starts nor ends with whitespace.  When the opening marker ends at or
    before the start of the closing marker the content reads: something, the
    opening marker, that slice, the closing marker, something.  For the
    content <mono-java.version>2.1.5</mono-java.version> and the single tag
    mono-java.version the result is the dict with 2.1.5 under that tag. *)
Theorem C4_value_between_first_markers :
  (forall (content : string) (tags : list string) (tag : string),
     In tag tags ->
     occurs content (start_tag tag) ->
     occurs content (end_tag tag) ->
     let i := find content (start_tag tag) in
     let j := find content (end_tag tag) in
     let between :=
       slice content (i + Z.of_nat (String.length (start_tag tag))) j in
     (exists versions value,
        find_version_tags_from_pom content tags = Some versions
        /\ dict_get versions tag = Some value
        /\ value = strip between
        /\ (exists l r,
              between = l ++ value ++ r
              /\ all_space l = true /\ all_space r = true)
        /\ not_space (first_char value)
        /\ not_space (last_char value))
     /\ occurs_at (Z.to_nat i) content (start_tag tag)
     /\ (forall k, k < Z.to_nat i -> ~ occurs_at k content (start_tag tag))
     /\ occurs_at (Z.to_nat j) content (end_tag tag)
     /\ (forall k, k < Z.to_nat j -> ~ occurs_at k content (end_tag tag))
     /\ ((i + Z.of_nat (String.length (start_tag tag)) <= j)%Z ->
         exists pre post,
           content = pre ++ start_tag tag ++ between ++ end_tag tag ++ post
           /\ String.length pre = Z.to_nat i))
  /\ find_version_tags_from_pom
       "<mono-java.version>2.1.5</mono-java.version>" ["mono-java.version"]
     = Some [("mono-java.version", "2.1.5")].
Proof.
  split; [|reflexivity].
  intros content tags tag Hin Hs He i j between.
  apply find_present in Hs, He.
  destruct (find_first _ _ _ eq_refl Hs) as (Oi & Hi & Fi).
  destruct (find_first _ _ _ eq_refl He) as (Oj & Hj & Fj).
  split; [|repeat split; auto].
  - destruct (find_version_tags_from_pom_some content tags tag Hin)
      as (versions & Hv & Hg); [apply both_found_true; now split|].
    destruct (strip_spec between) as (l & r & Hb & Hl & Hr & Hf & Hlast).
    exists versions, (strip between).
    split; [exact Hv|]; split; [exact Hg|]; split; [reflexivity|].
    split; [now exists l, r|]; now split.
  - intros Hle.
    destruct (slice_between content (start_tag tag) (end_tag tag) _ _ Oi Oj)
      as (pre & post & Hc & Hl); [fold i j; lia|].
    exists pre, post; split; [|exact Hl].
    rewrite Hc at 1; do 3 f_equal; unfold between; f_equal; fold i j; lia.
Qed.

(** C5: when both markers of a requested tag occur and the first closing
    marker starts before the first opening marker, the extractor still
    returns a dict with the tag in it; the value is the trimmed slice from
    the end of the first opening marker to the start of the first closing
    marker, which is the empty string. *)
Theorem C5_closing_marker_first (content : string) (tags : list string)
    (tag : string) :
  In tag tags ->
  occurs content (start_tag tag) ->
  occurs content (end_tag tag) ->
  (find content (end_tag tag) < find content (start_tag tag))%Z ->
  exists versions,
    find_version_tags_from_pom content tags = Some versions
    /\ dict_get versions tag =
       Some (strip (slice content
                      (find content (start_tag tag)
                       + Z.of_nat (String.length (start_tag tag)))
                      (find content (end_tag tag))))
    /\ dict_get versions tag = Some EmptyString.
Proof.
  intros Hin Hs He Hlt.
  apply find_present in Hs, He.
  destruct (find_version_tags_from_pom_some content tags tag Hin)
    as (versions & Hv & Hg); [apply both_found_true; now split|].
  exists versions; split; [exact Hv|]; split; [exact Hg|].
  rewrite Hg; unfold version_value; rewrite slice_crossed; [reflexivity|].
  destruct (find_range content (end_tag tag)); lia.
Qed.

(** C6: a requested tag with a marker missing from the content is left out
    of the result; the result is the sentinel [None], never an empty dict,
    exactly when every requested tag has a marker missing; in particular it
    is [None] when the only requested tag has no opening marker. *)
Theorem C6_missing_markers_skipped_and_sentinel (content : string)
    (tags : list string) :
  (forall tag versions,
     ~ occurs content (start_tag tag) \/ ~ occurs content (end_tag tag) ->
     find_version_tags_from_pom content tags = Some versions ->
     dict_get versions tag = None)
  /\ find_version_tags_from_pom content tags <> Some []
  /\ (find_version_tags_from_pom content tags = None <->
      forall tag, In tag tags ->
        ~ occurs content (start_tag tag) \/ ~ occurs content (end_tag tag))
  /\ (forall tag, ~ occurs content (start_tag tag) ->
        find_version_tags_from_pom content [tag] = None).
Proof.
  assert (Hbf : forall tag,
    both_found content tag = false <->
    ~ occurs content (start_tag tag) \/ ~ occurs content (end_tag tag))
    by (intros tag; now rewrite both_found_false, !find_absent).
  split; [|split; [|split]].
  - intros tag versions Hmiss Hv.
    rewrite (find_version_tags_from_pom_get _ _ _ _ Hv).
    apply Hbf in Hmiss as ->; now rewrite andb_false_r.
  - unfold find_version_tags_from_pom.
    destruct (fold_left (scan_tag content) tags []); discriminate.
  - rewrite find_version_tags_from_pom_none; split; intros H tag Hin;
      apply Hbf, H, Hin.
  - intros tag Hmiss; apply find_version_tags_from_pom_none.
    intros t [<-|[]]; apply Hbf; now left.
Qed.

End ExtractorFacts.

(** ** The walker *)

Section WalkerFacts.

Variable repr : json -> string.
Variable server : list string -> string -> response.
Variable api_url base_url : string.

Local Abbreviation visit_entry := (visit_entry repr base_url).
Local Abbreviation for_entries := (for_entries repr base_url).
Local Abbreviation recursive_search :=
  (recursive_search repr server api_url base_url).

Local Open Scope list_scope.

#[local] Arguments Py.eq_str : simpl never.
#[local] Arguments Py.lookup : simpl never.
#[local] Arguments PyStr.endswith : simpl never.

Lemma visited_app (t1 t2 : list event) :
  visited (t1 ++ t2) = visited t1 ++ visited t2.
Proof. apply flat_map_app. Qed.

Lemma requests_app (t1 t2 : list event) :
  requests (t1 ++ t2) = requests t1 ++ requests t2.
Proof. apply flat_map_app. Qed.

Lemma grows_refl (w : world) : grows_by [] w w.
Proof. split; simpl; now rewrite app_nil_r. Qed.

Lemma grows_trans (t1 t2 : list event) (w w1 w2 : world) :
  grows_by t1 w w1 -> grows_by t2 w1 w2 -> grows_by (t1 ++ t2) w w2.
Proof.
  intros [T1 P1] [T2 P2]; split.
  - now rewrite T2, T1, app_assoc.
  - now rewrite P2, P1, visited_app, flat_map_app, app_assoc.
Qed.

Lemma andThen_returned (m k : walk) (w w' : world) :
  andThen m k w = (Returned, w') ->
  exists w1, m w = (Returned, w1) /\ k w1 = (Returned, w').
Proof.
  unfold andThen; destruct (m w) as [[| |] w1]; try discriminate.
  intros H; now exists w1.
Qed.

Lemma andThen_assoc (a b c : walk) (w : world) :
  andThen (andThen a b) c w = andThen a (andThen b c) w.
Proof. unfold andThen; now destruct (a w) as [[| |] w1]. Qed.

(** The loop over a page, split at any point. *)
Lemma for_entries_app (search : string -> walk) (depth : nat)
    (pre post : list json) (w : world) :
  for_entries search depth (pre ++ post) w =
  andThen (for_entries search depth pre) (for_entries search depth post) w.
Proof.
  revert w; induction pre as [|e pre IH]; intros w; simpl; [reflexivity|].
  rewrite andThen_assoc; unfold andThen at 1 2.
  destruct (visit_entry _ _ _) as [[| |] w1]; [apply IH | reflexivity..].
Qed.

(** An entry that the walk can skip leaves the state alone, whatever the
    recursive call would do. *)
Lemma visit_entry_ignored (search : string -> walk) (e : json) (w : world) :
  ignored e = true -> visit_entry search e w = (Returned, w).
Proof.
  destruct e as [| | | s | |fields]; simpl; try reflexivity; try discriminate.
  unfold lift; destruct (Py.lookup fields "type") as [ty|]; [|discriminate].
  intros H; apply andb_true_iff in H as [H1 H2].
  apply negb_true_iff in H1, H2; unfold ok; cbn beta iota.
  now rewrite H1, H2.
Qed.

Lemma ignored_not_discovered (e : json) : ignored e = true -> discovered e = [].
Proof.
  unfold discovered; destruct e as [| | | s | |fields]; simpl;
    try reflexivity; try discriminate.
  destruct (Py.lookup fields "type") as [ty|]; [|discriminate].
  intros H; apply andb_true_iff in H as [_ H2]; apply negb_true_iff in H2.
  rewrite H2; now destruct (Py.lookup fields "name").
Qed.

Lemma eq_str_true (v : json) (s : string) :
  Py.eq_str v s = true <-> v = JStr s.
Proof.
  destruct v; unfold Py.eq_str; try (split; [discriminate | intros [=]]).
  rewrite String.eqb_eq; split; [now intros -> | now intros [= ->]].
Qed.

Lemma level_pages_app (depth : nat) (t1 t2 : list event) :
  level_pages depth (t1 ++ t2) = level_pages depth t1 ++ level_pages depth t2.
Proof. apply flat_map_app. Qed.

Lemma sent_app (t1 t2 : list event) : sent (t1 ++ t2) = sent t1 ++ sent t2.
Proof. apply flat_map_app. Qed.

Lemma deeper_weaken (d d' : nat) (t : list event) :
  d <= d' -> deeper d' t -> deeper d t.
Proof. intros Hd; apply Forall_impl; intros ev; lia. Qed.

Lemma deeper_app (d : nat) (t1 t2 : list event) :
  deeper d t1 -> deeper d t2 -> deeper d (t1 ++ t2).
Proof. intros H1 H2; apply Forall_app; now split. Qed.

(** Calls below [depth] send nothing at [depth]. *)
Lemma level_pages_deeper (depth : nat) (t : list event) :
  deeper (S depth) t -> level_pages depth t = [].
Proof.
  induction 1 as [|ev t Hev _ IH]; simpl; [reflexivity|].
  rewrite IH, app_nil_r; destruct ev as [d u a|d e]; simpl in *; auto.
  destruct (Nat.eqb_spec d depth); [lia | reflexivity].
Qed.

(** What one entry adds, given what the recursive call adds. *)
Lemma visit_entry_returned (dp : nat) (search : string -> walk) (e : json)
    (w w' : world) :
  search_spec dp search ->
  visit_entry search e w = (Returned, w') ->
  exists t,
    trace w' = trace w ++ t
    /\ pom_files w' = pom_files w ++ discovered e
                        ++ flat_map discovered (visited t)
    /\ deeper dp t.
Proof.
  intros Hsearch.
  assert (Hsame : discovered e = [] -> w' = w -> exists t,
            trace w' = trace w ++ t
            /\ pom_files w' = pom_files w ++ discovered e
                                ++ flat_map discovered (visited t)
            /\ deeper dp t).
  { intros -> ->; exists []; simpl; rewrite !app_nil_r; repeat split.
    constructor. }
  assert (Hnil : deeper dp []) by constructor.
  destruct e as [| | | s | |fields]; simpl;
    try (intros [= <-]; now apply Hsame).
  - unfold discovered; simpl; destruct (PyStr.endswith s "pom.xml") eqn:E;
      intros [= <-]; exists []; simpl; rewrite ?app_nil_r; auto.
  - unfold lift, discovered, path_of, entry_path, rbind, ok, raise; simpl.
    destruct (Py.lookup fields "type") as [ty|]; [|discriminate].
    destruct (Py.eq_str ty "DIRECTORY") eqn:D.
    + apply eq_str_true in D as ->; simpl.
      destruct (Py.lookup fields "path") as [p|]; [|discriminate];
        unfold ok; cbn beta iota.
      destruct (Py.getitem p "toString") as [ex|ts]; [discriminate|].
      intros H; apply Hsearch in H as (t & [T P] & Hd); exists t.
      now destruct (Py.lookup fields "name").
    + destruct (Py.eq_str ty "FILE") eqn:F.
      * destruct (Py.lookup fields "name") as [name|]; [|discriminate]; simpl.
        destruct (Py.eq_str name "pom.xml") eqn:N.
        -- destruct (Py.lookup fields "path") as [p|]; [|discriminate];
             unfold ok; cbn beta iota.
           destruct (Py.getitem p "toString") as [ex|ts]; [discriminate|].
           intros [= <-]; exists []; simpl; rewrite ?app_nil_r; auto.
        -- intros [= <-]; exists []; simpl; rewrite ?app_nil_r; auto.
      * intros [= <-]; exists []; simpl.
        destruct (Py.lookup fields "name"); simpl; rewrite ?app_nil_r; auto.
Qed.

(** What the loop over a page adds: nothing at its own depth but visits. *)
Lemma for_entries_returned (search : string -> walk) (depth : nat)
    (entries : list json) (w w' : world) :
  search_spec (S depth) search ->
  for_entries search depth entries w = (Returned, w') ->
  exists t, grows_by t w w' /\ deeper depth t /\ level_pages depth t = [].
Proof.
  intros Hsearch; revert w; induction entries as [|e entries IH]; intros w.
  - intros [= <-]; exists []; split; [apply grows_refl|].
    split; [constructor | reflexivity].
  - simpl; intros H; apply andThen_returned in H as (w1 & Hv & Hrest).
    apply (visit_entry_returned (S depth)) in Hv as (t1 & T1 & P1 & D1);
      [|exact Hsearch].
    apply IH in Hrest as (t2 & G2 & D2 & L2).
    exists ((Visit depth e :: t1) ++ t2); split; [|split].
    + apply grows_trans with w1; [|exact G2].
      split; simpl in *; [now rewrite T1, <- app_assoc | exact P1].
    + apply deeper_app; [|exact D2].
      constructor; [simpl; lia | apply deeper_weaken with (S depth); auto].
    + rewrite level_pages_app, L2, app_nil_r; simpl.
      now apply level_pages_deeper.
Qed.

(** One turn of the [while] loop. *)
Lemma recursive_search_page (fuel depth : nat) (c : ascii) (u : string)
    (w : world) :
  let url := String c u in
  let answer := server (requests (trace w)) url in
  recursive_search (S fuel) depth (Some url) w =
  match answer with
  | Fails e => (Raised e, record (Request depth url answer) w)
  | Body data =>
      lift (vs <- Py.get data "values" (JArr []) ;; Py.iter vs)
        (fun entries =>
           andThen
             (for_entries
                (fun sub => recursive_search fuel (S depth) (Some sub))
                depth entries)
             (lift (Py.get data "isLastPage" JNull) (fun last =>
                if Py.truthy last then recursive_search fuel depth None
                else
                  lift (Py.get data "nextPageStart" JNull)
                    (fun next_page_start =>
                       recursive_search fuel depth
                         (Some (api_url ++ "?start="
                                  ++ py_str repr next_page_start)%string)))))
        (record (Request depth url answer) w)
  end.
Proof. reflexivity. Qed.

Lemma recursive_search_stop (fuel depth : nat) (w : world) :
  recursive_search fuel depth None w = (Returned, w)
  /\ recursive_search fuel depth (Some EmptyString) w = (Returned, w).
Proof. now destruct fuel. Qed.

Lemma next_url_nonempty (suffix : string) :
  exists c u, (api_url ++ "?start=" ++ suffix)%string = String c u.
Proof. destruct api_url as [|c u]; simpl; eauto. Qed.

Lemma grows_request (depth : nat) (url : string) (answer : response)
    (w : world) :
  grows_by [Request depth url answer] w (record (Request depth url answer) w).
Proof. split; simpl; [reflexivity | now rewrite app_nil_r]. Qed.

Lemma grows_after_request (depth : nat) (url : string) (answer : response)
    (t : list event) (w w' : world) :
  grows_by t (record (Request depth url answer) w) w' ->
  grows_by (Request depth url answer :: t) w w'.
Proof.
  intros G.
  exact (grows_trans [Request depth url answer] t w _ w'
           (grows_request depth url answer w) G).
Qed.

(** What a call that returns has done: it extended the trace and the list,
    everything it did is at its depth or deeper, and, when it was given a
    URL, the pages of its own loop were read to the end. *)
Lemma recursive_search_returned (fuel : nat) :
  forall depth url w w',
    recursive_search fuel depth url w = (Returned, w') ->
    exists t,
      grows_by t w w' /\ deeper depth t
      /\ ((url = None \/ url = Some EmptyString) /\ t = []
          \/ drained (level_pages depth t)).
Proof.
  induction fuel as [|fuel IH]; intros depth url w w'.
  - destruct url as [[|c u]|]; simpl; try discriminate; intros [= <-];
      exists []; (split; [apply grows_refl | split; [constructor | auto]]).
  - destruct url as [[|c u]|];
      try (simpl; intros [= <-]; exists [];
           split; [apply grows_refl | split; [constructor | now auto]]).
    rewrite recursive_search_page; cbv zeta.
    set (url := String c u); set (answer := server _ url).
    destruct answer as [e|data] eqn:Ea; [discriminate|].
    unfold lift at 1.
    destruct (vs <- Py.get data "values" (JArr []);; Py.iter vs)
      as [e|entries]; [discriminate|].
    intros H; apply andThen_returned in H as (w2 & Hfor & Hpag).
    apply for_entries_returned in Hfor as (t1 & G1 & D1 & L1).
    2:{ intros sub wa wb Hs; apply IH in Hs as (t & G & D & _); eauto. }
    unfold lift in Hpag.
    destruct (Py.get data "isLastPage" JNull) as [e|last] eqn:El;
      [discriminate|].
    destruct (Py.truthy last) eqn:Et.
    + rewrite (proj1 (recursive_search_stop fuel depth w2)) in Hpag.
      injection Hpag as <-.
      exists (Request depth url (Body data) :: t1); split; [|split].
      * now apply grows_after_request.
      * constructor; [simpl; lia | exact D1].
      * right; exists [], (Body data); simpl.
        rewrite Nat.eqb_refl, L1; simpl; rewrite El; repeat split; auto.
    + destruct (Py.get data "nextPageStart" JNull) as [e|next];
        [discriminate|].
      destruct (next_url_nonempty (py_str repr next)) as (c' & u' & Hn).
      rewrite Hn in Hpag.
      apply IH in Hpag as (t2 & G2 & D2 & [[[|] _]|Hdr]); try discriminate.
      exists ((Request depth url (Body data) :: t1) ++ t2); split; [|split].
      * apply grows_trans with w2; [|exact G2].
        now apply grows_after_request.
      * apply deeper_app; [|exact D2].
        constructor; [simpl; lia | exact D1].
      * right; destruct Hdr as (before & final & Hp & Hlast & Hbefore).
        exists (Body data :: before), final.
        rewrite level_pages_app, Hp; simpl.
        rewrite Nat.eqb_refl, L1; simpl; repeat split; auto.
        constructor; [simpl; now rewrite El | exact Hbefore].
Qed.

(** More fuel does not change how a call ended, once it ended. *)
Lemma visit_entry_more (s1 s2 : string -> walk) (e : json) (w w' : world)
    (st : status) :
  (forall sub wa wb st', s1 sub wa = (st', wb) -> ended st' ->
                         s2 sub wa = (st', wb)) ->
  visit_entry s1 e w = (st, w') -> ended st ->
  visit_entry s2 e w = (st, w').
Proof.
  intros Hs; destruct e as [| | | s | |fields]; try (simpl; now auto).
  unfold visit_entry, lift.
  destruct (Py.getitem (JObj fields) "type") as [ex|ty]; auto.
  destruct (Py.eq_str ty "DIRECTORY").
  - destruct (p <- Py.getitem (JObj fields) "path";; Py.getitem p "toString")
      as [ex|ts]; [auto | apply Hs].
  - destruct (Py.eq_str ty "FILE"); auto.
Qed.

Lemma for_entries_more (s1 s2 : string -> walk) (depth : nat)
    (entries : list json) :
  (forall sub wa wb st', s1 sub wa = (st', wb) -> ended st' ->
                         s2 sub wa = (st', wb)) ->
  forall w w' st,
    for_entries s1 depth entries w = (st, w') -> ended st ->
    for_entries s2 depth entries w = (st, w').
Proof.
  intros Hs; induction entries as [|e entries IH]; intros w w' st; simpl; auto.
  unfold andThen.
  destruct (visit_entry s1 e (record (Visit depth e) w)) as [st1 w1] eqn:E.
  intros H Hend.
  assert (Hend1 : ended st1)
    by (destruct st1; [discriminate | discriminate |];
        injection H as <- _; exact Hend).
  rewrite (visit_entry_more s1 s2 e _ _ _ Hs E Hend1).
  destruct st1; auto.
Qed.

Lemma recursive_search_more (fuel : nat) :
  forall fuel' depth url w w' st,
    fuel <= fuel' ->
    recursive_search fuel depth url w = (st, w') -> ended st ->
    recursive_search fuel' depth url w = (st, w').
Proof.
  induction fuel as [|fuel IH]; intros fuel' depth url w w' st Hle.
  - destruct url as [[|c u]|]; simpl.
    + intros H _; now rewrite (proj2 (recursive_search_stop fuel' depth w)).
    + intros [= <- _] Hend; now elim Hend.
    + intros H _; now rewrite (proj1 (recursive_search_stop fuel' depth w)).
  - destruct fuel' as [|fuel']; [lia|].
    destruct url as [[|c u]|]; try (simpl; now auto).
    intros H Hend; rewrite recursive_search_page in H |- *; cbv zeta in *.
    destruct (server (requests (trace w)) (String c u)) as [e|data];
      [exact H|].
    unfold lift at 1 in H; unfold lift at 1.
    destruct (vs <- Py.get data "values" (JArr []);; Py.iter vs)
      as [e|entries]; [exact H|].
    unfold andThen in H |- *.
    destruct (for_entries
                (fun sub => recursive_search fuel (S depth) (Some sub))
                depth entries _) as [st1 w1] eqn:E.
    assert (Hend1 : ended st1)
      by (destruct st1; [discriminate | discriminate |];
          injection H as <- _; exact Hend).
    rewrite (for_entries_more _
               (fun sub => recursive_search fuel' (S depth) (Some sub))
               depth entries
               (fun sub wa wb st' => IH fuel' (S depth) (Some sub) wa wb st'
                                       ltac:(lia))
               _ _ _ E Hend1).
    destruct st1; [|exact H|exact H].
    revert H; unfold lift.
    destruct (Py.get data "isLastPage" JNull) as [e|last]; auto.
    destruct (Py.truthy last).
    + rewrite !(proj1 (recursive_search_stop _ depth w1)); auto.
    + destruct (Py.get data "nextPageStart" JNull) as [e|next]; auto.
      intros H; apply IH; [lia | exact H | exact Hend].
Qed.

(** After a page that is not the last one, the same call goes on with the
    next page, whose URL is built from [api_url]. *)
Lemma recursive_search_next_page (fuel depth : nat) (c : ascii) (u : string)
    (w w2 : world) (data last next : json) (entries : list json) :
  let url := String c u in
  server (requests (trace w)) url = Body data ->
  (vs <- Py.get data "values" (JArr []) ;; Py.iter vs) = inr entries ->
  for_entries (fun sub => recursive_search fuel (S depth) (Some sub)) depth
    entries (record (Request depth url (Body data)) w) = (Returned, w2) ->
  Py.get data "isLastPage" JNull = inr last ->
  Py.truthy last = false ->
  Py.get data "nextPageStart" JNull = inr next ->
  recursive_search (S fuel) depth (Some url) w =
  recursive_search fuel depth
    (Some (api_url ++ "?start=" ++ py_str repr next)%string) w2.
Proof.
  intros url Hs Hv Hfor Hl Ht Hn; subst url.
  rewrite recursive_search_page; cbv zeta; rewrite Hs.
  unfold lift at 1; rewrite Hv; unfold andThen; rewrite Hfor.
  unfold lift; now rewrite Hl, Ht, Hn.
Qed.

Lemma discovered_length (entries : list json) :
  length (flat_map discovered entries) = length (filter is_pom_entry entries).
Proof.
  induction entries as [|e entries IH]; simpl; [reflexivity|].
  rewrite length_app, IH; unfold discovered.
  now destruct (is_pom_entry e).
Qed.

(** The entries that yield a path, spelled out. *)
Lemma is_pom_entry_spec (e : json) :
  is_pom_entry e = true <->
  (exists s, e = JStr s /\ PyStr.endswith s "pom.xml" = true)
  \/ (exists fields, e = JObj fields
        /\ Py.lookup fields "type" = Some (JStr "FILE")
        /\ Py.lookup fields "name" = Some (JStr "pom.xml")).
Proof.
  destruct e as [| | | s | |fields]; simpl;
    try (split; [discriminate | intros [(s0 & [=] & _)|(f & [=] & _)]]).
  - split; [intros H; left; now exists s|].
    intros [(s0 & [= <-] & H)|(f & [=] & _)]; exact H.
  - split.
    + destruct (Py.lookup fields "type") as [ty|] eqn:Ety; [|discriminate].
      destruct (Py.lookup fields "name") as [name|] eqn:En; [|discriminate].
      intros H; apply andb_true_iff in H as [H1 H2].
      apply eq_str_true in H1; apply eq_str_true in H2; subst ty name.
      right; exists fields; auto.
    + intros [(s0 & [=] & _)|(f & [= <-] & -> & ->)]; reflexivity.
Qed.

Lemma directory_not_discovered (d p : json) :
  directory_path d = Some p -> discovered d = [].
Proof.
  unfold directory_path, discovered; destruct d as [| | | s | |fields];
    try discriminate; simpl.
  destruct (Py.lookup fields "type") as [ty|]; [|discriminate].
  destruct (Py.eq_str ty "DIRECTORY") eqn:D; [|discriminate].
  apply eq_str_true in D as ->; intros _.
  now destruct (Py.lookup fields "name").
Qed.

Lemma visit_entry_directory (search : string -> walk) (d p : json)
    (w : world) :
  directory_path d = Some p ->
  visit_entry search d w = search (base_url ++ "/" ++ py_str repr p)%string w.
Proof.
  unfold directory_path, entry_path; destruct d as [| | | s | |fields];
    try discriminate; simpl.
  unfold lift, rbind, ok, raise.
  destruct (Py.lookup fields "type") as [ty|]; [|discriminate].
  destruct (Py.eq_str ty "DIRECTORY"); [|discriminate].
  destruct (Py.lookup fields "path") as [q|]; [|discriminate].
  destruct (Py.getitem q "toString") as [e|ts]; [discriminate|].
  now intros [= <-].
Qed.

(** C10: an entry that is neither a plain string nor a dict, and a dict whose
    type tag is neither DIRECTORY nor FILE, is skipped: handling it returns
    without raising and leaves the state as it was whatever the recursive
    search would do, it stands for no path, and the loop goes on with the
    rest of the page. *)
Theorem C10_other_entries_are_skipped (search : string -> walk) (depth : nat)
    (e : json) (rest : list json) (w : world) :
  ignored e = true ->
  visit_entry search e w = (Returned, w)
  /\ discovered e = []
  /\ for_entries search depth (e :: rest) w =
     for_entries search depth rest (record (Visit depth e) w).
Proof.
  intros H; split; [|split].
  - now apply visit_entry_ignored.
  - now apply ignored_not_discovered.
  - simpl; unfold andThen; now rewrite visit_entry_ignored.
Qed.

Lemma visits_at_app (depth : nat) (t1 t2 : list event) :
  visits_at depth (t1 ++ t2) = visits_at depth t1 ++ visits_at depth t2.
Proof. apply flat_map_app. Qed.

Lemma answers_app (t1 t2 : list event) :
  answers (t1 ++ t2) = answers t1 ++ answers t2.
Proof. apply flat_map_app. Qed.

(** Calls below [depth] take no entry at [depth]. *)
Lemma visits_at_deeper (depth : nat) (t : list event) :
  deeper (S depth) t -> visits_at depth t = [].
Proof.
  induction 1 as [|ev t Hev _ IH]; simpl; [reflexivity|].
  rewrite IH, app_nil_r; destruct ev as [d u a|d e]; simpl in *; auto.
  destruct (Nat.eqb_spec d depth); [lia | reflexivity].
Qed.

Lemma pages_entries_app (p1 p2 : list response) (e1 e2 : list json) :
  pages_entries p1 = Some e1 -> pages_entries p2 = Some e2 ->
  pages_entries (p1 ++ p2) = Some (e1 ++ e2).
Proof.
  revert e1; induction p1 as [|a p1 IH]; intros e1; simpl.
  - now intros [= <-].
  - destruct (answer_entries a) as [es|]; [|discriminate].
    destruct (pages_entries p1) as [more|]; [|discriminate].
    intros [= <-] H2; rewrite (IH more eq_refl H2); now rewrite app_assoc.
Qed.

Lemma at_depth_nil (depth d : nat) : at_depth depth [] d = [].
Proof. unfold at_depth; now destruct (Nat.eqb d depth). Qed.

Lemma reads_nil (depth : nat) : reads depth [] [].
Proof.
  split.
  - intros d; exists []; now rewrite at_depth_nil.
  - exists []; split; [reflexivity | constructor].
Qed.

Lemma reads_any_depth (d1 d2 : nat) (t : list event) :
  reads d1 [] t -> reads d2 [] t.
Proof.
  intros [H P]; split; [|exact P].
  intros d; destruct (H d) as (es & He & Hv); exists es.
  now rewrite at_depth_nil in *.
Qed.

(** One entry of a page: the loop takes it, what handling it does comes
    from deeper calls, then the loop goes through the rest of the page. *)
Lemma reads_visit (depth dp : nat) (e : json) (rest : list json)
    (t1 t2 : list event) :
  deeper (S depth) t1 -> reads dp [] t1 -> reads depth rest t2 ->
  reads depth (e :: rest) (Visit depth e :: t1 ++ t2).
Proof.
  intros D1 [H1 (all1 & A1 & P1)] [H2 (all2 & A2 & P2)]; split.
  - intros d; destruct (H1 d) as (es1 & E1 & V1), (H2 d) as (es2 & E2 & V2).
    rewrite at_depth_nil in V1; cbn [app] in V1.
    exists (es1 ++ es2); split.
    + change (level_pages d (Visit depth e :: t1 ++ t2))
        with (level_pages d (t1 ++ t2)).
      rewrite level_pages_app; now apply pages_entries_app.
    + change (visits_at d (Visit depth e :: t1 ++ t2))
        with ((if Nat.eqb depth d then [e] else []) ++ visits_at d (t1 ++ t2)).
      rewrite visits_at_app, V1, V2; unfold at_depth.
      destruct (Nat.eqb_spec d depth) as [->|Hne].
      * rewrite Nat.eqb_refl.
        rewrite (level_pages_deeper _ _ D1) in E1; injection E1 as <-.
        reflexivity.
      * destruct (Nat.eqb_spec depth d); [congruence | reflexivity].
  - exists (all1 ++ all2); split.
    + change (answers (Visit depth e :: t1 ++ t2)) with (answers (t1 ++ t2)).
      rewrite answers_app; now apply pages_entries_app.
    + change (visited (Visit depth e :: t1 ++ t2))
        with (e :: visited (t1 ++ t2)).
      rewrite visited_app; cbn [app] in *; apply perm_skip.
      transitivity (all1 ++ rest ++ all2);
        [now apply Permutation_app | apply Permutation_app_swap_app].
Qed.

(** One page: the request, the loop over the entries of its answer, then
    the pages that follow. *)
Lemma reads_page (depth : nat) (url : string) (data : json)
    (entries : list json) (t1 t2 : list event) :
  page_entries data = inr entries ->
  reads depth entries t1 -> reads depth [] t2 ->
  reads depth [] (Request depth url (Body data) :: t1 ++ t2).
Proof.
  intros Hp [H1 (all1 & A1 & P1)] [H2 (all2 & A2 & P2)]; split.
  - intros d; destruct (H1 d) as (es1 & E1 & V1), (H2 d) as (es2 & E2 & V2).
    rewrite at_depth_nil in *; cbn [app] in V2 |- *.
    exists (at_depth depth entries d ++ es1 ++ es2); split.
    + change (level_pages d (Request depth url (Body data) :: t1 ++ t2))
        with ((if Nat.eqb depth d then [Body data] else [])
                ++ level_pages d (t1 ++ t2)).
      rewrite level_pages_app; unfold at_depth.
      destruct (Nat.eqb_spec d depth) as [->|Hne].
      * rewrite Nat.eqb_refl; cbn [app pages_entries].
        rewrite (pages_entries_app _ _ _ _ E1 E2).
        unfold answer_entries; now rewrite Hp.
      * destruct (Nat.eqb_spec depth d); [congruence|].
        cbn [app]; now apply pages_entries_app.
    + change (visits_at d (Request depth url (Body data) :: t1 ++ t2))
        with (visits_at d (t1 ++ t2)).
      now rewrite visits_at_app, V1, V2, app_assoc.
  - exists (entries ++ all1 ++ all2); split.
    + change (answers (Request depth url (Body data) :: t1 ++ t2))
        with (Body data :: answers (t1 ++ t2)).
      cbn [pages_entries]; rewrite answers_app.
      rewrite (pages_entries_app _ _ _ _ A1 A2).
      unfold answer_entries; now rewrite Hp.
    + change (visited (Request depth url (Body data) :: t1 ++ t2))
        with (visited (t1 ++ t2)).
      rewrite visited_app; cbn [app] in P2 |- *; rewrite app_assoc.
      now apply Permutation_app.
Qed.

(** What handling one entry does with pages, given what the recursive call
    does. *)
Lemma visit_entry_reads (dp : nat) (search : string -> walk) (e : json)
    (w w' : world) :
  search_reads dp search ->
  visit_entry search e w = (Returned, w') ->
  exists t, trace w' = trace w ++ t /\ deeper dp t /\ reads dp [] t.
Proof.
  intros Hsearch.
  assert (Hnil : forall w0, trace w0 = trace w ->
                   (Returned, w0) = (Returned, w') ->
                   exists t, trace w' = trace w ++ t /\ deeper dp t
                             /\ reads dp [] t).
  { intros w0 Ht [= <-]; exists []; rewrite app_nil_r.
    split; [exact Ht|]; split; [constructor | apply reads_nil]. }
  destruct e as [| | | s | |fields];
    try (simpl; intros H; (eapply Hnil; [|exact H]; reflexivity)).
  - simpl; destruct (PyStr.endswith s "pom.xml"); intros H;
      (eapply Hnil; [|exact H]; reflexivity).
  - unfold visit_entry, lift.
    destruct (Py.getitem (JObj fields) "type") as [ex|ty]; [discriminate|].
    destruct (Py.eq_str ty "DIRECTORY").
    + destruct (p <- Py.getitem (JObj fields) "path";; Py.getitem p "toString")
        as [ex|ts]; [discriminate | apply Hsearch].
    + destruct (Py.eq_str ty "FILE");
        [|intros H; (eapply Hnil; [|exact H]; reflexivity)].
      destruct (Py.getitem (JObj fields) "name") as [ex|name];
        [discriminate|].
      destruct (Py.eq_str name "pom.xml");
        [|intros H; (eapply Hnil; [|exact H]; reflexivity)].
      destruct (p <- Py.getitem (JObj fields) "path";; Py.getitem p "toString")
        as [ex|ts]; [discriminate | intros H; (eapply Hnil; [|exact H]; reflexivity)].
Qed.

(** The loop over a page takes every entry of the page, in order. *)
Lemma for_entries_reads (search : string -> walk) (depth : nat)
    (entries : list json) :
  search_reads (S depth) search ->
  forall w w',
    for_entries search depth entries w = (Returned, w') ->
    exists t, trace w' = trace w ++ t /\ deeper depth t
              /\ reads depth entries t.
Proof.
  intros Hsearch; induction entries as [|e entries IH]; intros w w'.
  - intros [= <-]; exists []; rewrite app_nil_r.
    split; [reflexivity|]; split; [constructor | apply reads_nil].
  - simpl; intros H; apply andThen_returned in H as (w1 & Hv & Hrest).
    apply (visit_entry_reads (S depth)) in Hv as (t1 & T1 & D1 & R1);
      [|exact Hsearch].
    apply IH in Hrest as (t2 & T2 & D2 & R2).
    exists (Visit depth e :: t1 ++ t2); split; [|split].
    + rewrite T2, T1; simpl; now rewrite <- !app_assoc.
    + constructor; [simpl; lia|].
      apply deeper_app; [apply deeper_weaken with (S depth); auto | exact D2].
    + now apply reads_visit with (S depth).
Qed.

(** A call that returns went through every entry of every page it and the
    calls below it received. *)
Lemma recursive_search_reads (fuel : nat) :
  forall depth url w w',
    recursive_search fuel depth url w = (Returned, w') ->
    exists t, trace w' = trace w ++ t /\ deeper depth t /\ reads depth [] t.
Proof.
  induction fuel as [|fuel IH]; intros depth url w w'.
  - destruct url as [[|c u]|]; simpl; try discriminate; intros [= <-];
      exists []; rewrite app_nil_r;
      (split; [reflexivity | split; [constructor | apply reads_nil]]).
  - destruct url as [[|c u]|];
      try (simpl; intros [= <-]; exists []; rewrite app_nil_r;
           split; [reflexivity | split; [constructor | apply reads_nil]]).
    rewrite recursive_search_page; cbv zeta.
    set (url := String c u); set (answer := server _ url).
    destruct answer as [e|data] eqn:Ea; [discriminate|].
    unfold lift at 1.
    destruct (vs <- Py.get data "values" (JArr []);; Py.iter vs)
      as [e|entries] eqn:Ev; [discriminate|].
    intros H; apply andThen_returned in H as (w2 & Hfor & Hpag).
    apply for_entries_reads in Hfor as (t1 & T1 & D1 & R1).
    2:{ intros sub wa wb Hs; now apply IH in Hs. }
    unfold lift in Hpag.
    destruct (Py.get data "isLastPage" JNull) as [e|last]; [discriminate|].
    destruct (Py.truthy last).
    + rewrite (proj1 (recursive_search_stop fuel depth w2)) in Hpag.
      injection Hpag as <-.
      exists (Request depth url (Body data) :: t1 ++ []); split; [|split].
      * rewrite T1, app_nil_r; simpl; now rewrite <- app_assoc.
      * constructor; [simpl; lia | now rewrite app_nil_r].
      * apply reads_page with entries; [exact Ev | exact R1 | apply reads_nil].
    + destruct (Py.get data "nextPageStart" JNull) as [e|next];
        [discriminate|].
      apply IH in Hpag as (t2 & T2 & D2 & R2).
      exists (Request depth url (Body data) :: t1 ++ t2); split; [|split].
      * rewrite T2, T1; simpl; now rewrite <- !app_assoc.
      * constructor; [simpl; lia | now apply deeper_app].
      * now apply reads_page with entries.
Qed.

(** C7: when the walk returns, the list it hands back is, in the order of
    the visits, one path for every visited entry that is a plain string
    ending with pom.xml or a FILE dict named pom.xml, and nothing else; an
    entry visited twice is listed twice.  The visited entries are the
    entries of the pages the walk received: every answer was a page the loop
    could read; at each depth the loops took, in order, each entry of each
    page received at that depth; taken together the visited entries are the
    entries of all the pages received, each as many times as the pages carry
    it; so the list holds, up to the order, one path for every such entry on
    a page received.  More fuel gives the same list. *)
Theorem C7_pom_entries_recorded_in_discovery_order (fuel : nat)
    (t0 : list event) (w : world) :
  find_pom_xml_in_repo repr server api_url base_url fuel t0 = (Returned, w) ->
  (exists t,
     trace w = t0 ++ t
     /\ pom_files w = flat_map discovered (visited t)
     /\ length (pom_files w) = length (filter is_pom_entry (visited t))
     /\ (forall d, pages_entries (level_pages d t) = Some (visits_at d t))
     /\ exists all,
          pages_entries (answers t) = Some all
          /\ Permutation (visited t) all
          /\ Permutation (pom_files w) (flat_map discovered all))
  /\ forall fuel', fuel <= fuel' ->
       find_pom_xml_in_repo repr server api_url base_url fuel' t0
       = (Returned, w).
Proof.
  unfold find_pom_xml_in_repo; intros H; split.
  - destruct (recursive_search_returned _ _ _ _ _ H) as (t & [T P] & _).
    destruct (recursive_search_reads _ _ _ _ _ H)
      as (t' & T' & _ & Hlevel & all & Hall & Hperm).
    simpl in T, P, T'; rewrite T in T'; apply app_inv_head in T'; subst t'.
    exists t; split; [exact T|]; split; [exact P|].
    split; [rewrite P; apply discovered_length|]; split.
    + intros d; destruct (Hlevel d) as (es & He & Hv).
      rewrite at_depth_nil in Hv; cbn [app] in Hv; now rewrite Hv.
    + exists all; split; [exact Hall|]; split; [exact Hperm|].
      rewrite P; now apply Permutation_flat_map.
  - intros fuel' Hle.
    apply (recursive_search_more fuel fuel' _ _ _ _ _ Hle H); discriminate.
Qed.

(** Depth-first order.  In the loop over a page, a DIRECTORY entry is handled
    by the recursive search of its URL, and the entries after it are taken
    from the state that search leaves.  When the search returns, the pages
    its own loop asked for have been read up to a last page, everything it
    did comes before everything the later entries cause, and the paths it
    found come before theirs in the list. *)
Lemma subdirectory_searched_before_later_entries (fuel depth : nat)
    (pre post : list json) (d p : json) (w : world) :
  directory_path d = Some p ->
  let search := fun sub => recursive_search fuel (S depth) (Some sub) in
  let subdir_url := (base_url ++ "/" ++ py_str repr p)%string in
  for_entries search depth (pre ++ d :: post) w =
    andThen (for_entries search depth pre)
      (andThen (fun w1 => search subdir_url (record (Visit depth d) w1))
         (for_entries search depth post)) w
  /\ forall w1 w2 w3,
       for_entries search depth pre w = (Returned, w1) ->
       search subdir_url (record (Visit depth d) w1) = (Returned, w2) ->
       for_entries search depth post w2 = (Returned, w3) ->
       exists t_sub t_post,
         trace w2 = trace w1 ++ Visit depth d :: t_sub
         /\ trace w3 = trace w2 ++ t_post
         /\ drained (level_pages (S depth) t_sub)
         /\ pom_files w2 = pom_files w1 ++ flat_map discovered (visited t_sub)
         /\ pom_files w3 = pom_files w2 ++ flat_map discovered (visited t_post).
Proof.
  intros Hd search subdir_url; split.
  - rewrite for_entries_app; unfold andThen.
    destruct (for_entries search depth pre w) as [[| |] w1]; try reflexivity.
    simpl; unfold andThen.
    now rewrite (visit_entry_directory _ _ _ _ Hd).
  - intros w1 w2 w3 _ Hsub Hpost.
    assert (Hspec : search_spec (S depth) search).
    { intros sub wa wb Hs; apply recursive_search_returned in Hs
        as (t & G & D & _); eauto. }
    apply recursive_search_returned in Hsub as (t_sub & [T P] & _ & Hdr).
    apply for_entries_returned in Hpost as (t_post & [T' P'] & _);
      [|exact Hspec].
    exists t_sub, t_post; simpl in *.
    split; [now rewrite T, <- app_assoc|].
    split; [exact T'|].
    split; [|split; [exact P | exact P']].
    destruct Hdr as [[[|] _]|Hdr]; [discriminate| |exact Hdr].
    exfalso; subst subdir_url; destruct base_url; discriminate.
Qed.

End WalkerFacts.

(** ** Fetch, parse and the loop over the repositories *)

Section OrchestratorFacts.
Import PyStr PyStrFacts.

Variable repr : json -> string.
Variable server : list string -> string -> response.
Variable raw_server : string -> raw_response.

Local Abbreviation process_repository := (process_repository repr server).
Local Abbreviation fetch_file_content := (fetch_file_content repr raw_server).
Local Abbreviation fetch_and_parse_pom := (fetch_and_parse_pom repr raw_server).
Local Abbreviation scan_repository := (scan_repository repr server raw_server).
Local Abbreviation scan_all := (scan_all repr server raw_server).
Local Abbreviation task_rows := (task_rows repr raw_server).

Local Open Scope list_scope.

Lemma flat_map_map {A B C} (g : A -> B) (f : B -> list C) (l : list A) :
  flat_map f (map g l) = flat_map (fun a => f (g a)) l.
Proof. induction l as [|a l IH]; simpl; [reflexivity | now rewrite IH]. Qed.

Lemma task_rows_app (pk slug base : string) (tags : list string)
    (a b : list json) :
  task_rows pk slug base tags (a ++ b) =
  task_rows pk slug base tags a ++ task_rows pk slug base tags b.
Proof. apply flat_map_app. Qed.

(** A task whose fetch raises returns nothing and prints one line. *)
Lemma fetch_and_parse_pom_raised (pk slug : string) (f : json) (base : string)
    (tags : list string) (e : exn) :
  fetch_file_content pk slug f base = inl e ->
  fetch_and_parse_pom pk slug f base tags =
  (None, [ErrorProcessingFile pk slug f e]).
Proof. unfold fetch_and_parse_pom; now intros ->. Qed.

(** A task returns a result only with the non-empty dict extracted from the
    content it fetched. *)
Lemma fetch_and_parse_pom_some (pk slug : string) (f : json) (base : string)
    (tags : list string) (f' : json) (d : dict) :
  fst (fetch_and_parse_pom pk slug f base tags) = Some (f', d) ->
  f' = f /\ exists content,
    raw_server (file_url repr pk slug f base) = RawText content
    /\ find_version_tags_from_pom content tags = Some d.
Proof.
  unfold fetch_and_parse_pom, fetch_file_content.
  destruct (raw_server _) as [e|content]; simpl; [discriminate|].
  destruct (find_version_tags_from_pom content tags) as [[|kv d']|] eqn:E;
    simpl; try discriminate.
  intros [= <- <-]; split; [reflexivity | now exists content].
Qed.

(** What one repository whose walk returned adds to the report. *)
Lemma scan_repository_returned (fuel : nat) (base : string)
    (tags : list string) (r : report) (pk slug : string) (w : world) :
  process_repository fuel slug pk base (listing r) = (Returned, w) ->
  exists r',
    scan_repository fuel base tags r (pk, slug) = Some r'
    /\ listing r' = trace w
    /\ rows r' = rows r ++ task_rows pk slug base tags (pom_files w).
Proof.
  intros H; unfold scan_repository; rewrite H.
  eexists; split; [reflexivity|]; split; [reflexivity|]; simpl.
  now rewrite flat_map_map.
Qed.

(** What a repository whose walk raised adds: one line, no row. *)
Lemma scan_repository_raised (fuel : nat) (base : string)
    (tags : list string) (r : report) (pk slug : string) (e : exn)
    (w : world) :
  process_repository fuel slug pk base (listing r) = (Raised e, w) ->
  scan_repository fuel base tags r (pk, slug) =
  Some (mkReport (trace w) (rows r)
          (stdout r ++ [ErrorProcessingRepo pk slug e])).
Proof. intros H; unfold scan_repository; now rewrite H. Qed.

(** A repository only appends to the report. *)
Lemma scan_repository_appends (fuel : nat) (base : string)
    (tags : list string) (r r' : report) (repo : string * string) :
  scan_repository fuel base tags r repo = Some r' ->
  exists more lines,
    rows r' = rows r ++ more /\ stdout r' = stdout r ++ lines
    /\ more = match process_repository fuel (snd repo) (fst repo) base
                      (listing r) with
              | (Returned, w) =>
                  task_rows (fst repo) (snd repo) base tags (pom_files w)
              | _ => []
              end.
Proof.
  destruct repo as [pk slug]; unfold scan_repository; simpl.
  destruct (process_repository fuel slug pk base (listing r))
    as [[|e|] w]; [| |discriminate]; intros [= <-]; simpl.
  - eexists _, _; split; [|split]; [|reflexivity|reflexivity].
    now rewrite flat_map_map.
  - eexists [], _; split; [|split]; [|reflexivity|reflexivity].
    now rewrite app_nil_r.
Qed.

Lemma scan_all_cons (fuel : nat) (base : string) (tags : list string)
    (repo : string * string) (rest : list (string * string)) (r : report) :
  scan_all fuel base tags (repo :: rest) r =
  match scan_repository fuel base tags r repo with
  | Some r' => scan_all fuel base tags rest r'
  | None => None
  end.
Proof. reflexivity. Qed.

Lemma scan_all_appends (fuel : nat) (base : string) (tags : list string)
    (repos : list (string * string)) :
  forall r r', scan_all fuel base tags repos r = Some r' ->
               exists more lines,
                 rows r' = rows r ++ more /\ stdout r' = stdout r ++ lines.
Proof.
  induction repos as [|repo repos IH]; intros r r'.
  - intros [= <-]; exists [], []; now rewrite !app_nil_r.
  - rewrite scan_all_cons.
    destruct (scan_repository fuel base tags r repo) as [r1|] eqn:E;
      [|discriminate].
    intros H; apply IH in H as (m2 & l2 & R2 & S2).
    apply scan_repository_appends in E as (m1 & l1 & R1 & S1 & _).
    exists (m1 ++ m2), (l1 ++ l2); rewrite R2, S2, R1, S1.
    now rewrite !app_assoc.
Qed.

(** Every row of a task is a pair of the dict extracted from the content
    fetched for the task's file. *)
Lemma task_rows_from_first_markers (pk slug base : string)
    (tags : list string) (files : list json) (x : row) :
  In x (task_rows pk slug base tags files) ->
  row_project_key x = pk /\ row_repo_slug x = slug
  /\ In (row_file_path x) files
  /\ row_from_first_markers repr raw_server base tags x.
Proof.
  unfold task_rows; rewrite in_flat_map; intros (f & Hf & Hx).
  destruct (fst (fetch_and_parse_pom pk slug f base tags))
    as [[f' d]|] eqn:E; simpl in Hx; [|contradiction].
  apply fetch_and_parse_pom_some in E as (-> & content & Hraw & Hd).
  assert (Hin : In x (map (fun tv => mkRow pk slug f (fst tv) (snd tv)) d))
    by (destruct d; [contradiction | exact Hx]).
  apply in_map_iff in Hin as ([tag value] & <- & Hin).
  unfold row_from_first_markers, fetched_for.
  cbn [row_tag row_version row_project_key row_repo_slug row_file_path
       fst snd].
  apply (find_version_tags_from_pom_in _ _ _ _ _ Hd) in Hin
    as (Htag & Hb & ->).
  apply both_found_true in Hb as [Hs He].
  repeat split; auto.
  exists content; repeat split; auto.
  intros Hle.
  destruct (find_first _ _ _ eq_refl Hs) as (Oi & Hi & _).
  destruct (find_first _ _ _ eq_refl He) as (Oj & Hj & _).
  destruct (slice_between content (start_tag tag) (end_tag tag) _ _ Oi Oj)
    as (pre & post & Hc & _); [lia|].
  unfold enclosed; eexists pre, _, post; split; [exact Hc|].
  unfold version_value; do 2 f_equal; lia.
Qed.

(** C9: when the fetch of a discovered file raises, the task catches the
    exception and returns nothing; the report of the repository gets the rows
    of the tasks before it and of the tasks after it, which are the rows
    those tasks produce on their own, and no row for the file. *)
Theorem C9_failed_file_task_is_isolated (fuel : nat) (base : string)
    (tags : list string) (r : report) (pk slug : string) (w : world)
    (before after : list json) (f : json) (e : exn) :
  process_repository fuel slug pk base (listing r) = (Returned, w) ->
  pom_files w = before ++ f :: after ->
  fetch_file_content pk slug f base = inl e ->
  fetch_and_parse_pom pk slug f base tags =
    (None, [ErrorProcessingFile pk slug f e])
  /\ task_rows pk slug base tags [f] = []
  /\ exists r',
       scan_repository fuel base tags r (pk, slug) = Some r'
       /\ rows r' = rows r ++ task_rows pk slug base tags before
                      ++ task_rows pk slug base tags after.
Proof.
  intros Hwalk Hfiles Hfetch.
  pose proof (fetch_and_parse_pom_raised pk slug f base tags e Hfetch) as Ht.
  assert (Hone : task_rows pk slug base tags [f] = [])
    by (unfold task_rows; simpl; now rewrite Ht).
  split; [exact Ht|]; split; [exact Hone|].
  destruct (scan_repository_returned fuel base tags r pk slug w Hwalk)
    as (r' & Hscan & _ & Hrows).
  exists r'; split; [exact Hscan|].
  rewrite Hrows, Hfiles, task_rows_app.
  change (f :: after) with ([f] ++ after).
  now rewrite task_rows_app, Hone.
Qed.

(** C2, as it holds: every row the loop adds to the report belongs to one of
    the repositories scanned, its tag is one of the requested tags, both
    markers of the tag occur in the content fetched for the row's file, and
    its value is the trimmed slice of that content from the end of the first
    opening marker to the start of the first closing marker; when the first
    opening marker ends at or before the start of the first closing marker,
    the value is the trimmed text between the two. *)
Theorem C2_rows_come_from_first_markers (fuel : nat) (base : string)
    (tags : list string) (repos : list (string * string)) (r0 r : report)
    (x : row) :
  scan_all fuel base tags repos r0 = Some r ->
  In x (rows r) ->
  In x (rows r0)
  \/ In (row_project_key x, row_repo_slug x) repos
     /\ row_from_first_markers repr raw_server base tags x.
Proof.
  revert r0; induction repos as [|[pk slug] repos IH]; intros r0.
  - intros [= <-]; now left.
  - rewrite scan_all_cons.
    destruct (scan_repository fuel base tags r0 (pk, slug)) as [r1|] eqn:E;
      [|discriminate].
    intros Hrest Hx; destruct (IH _ Hrest Hx) as [H1|[Hin HP]];
      [|right; split; [now right | exact HP]].
    apply scan_repository_appends in E as (more & lines & R & _ & Hmore).
    rewrite R in H1; apply in_app_or in H1 as [H0|Hm]; [now left|right].
    simpl in Hmore; subst more.
    destruct (process_repository fuel slug pk base (listing r0))
      as [[|e|] w]; try contradiction.
    apply task_rows_from_first_markers in Hm as (<- & <- & _ & HP).
    split; [now left | exact HP].
Qed.

End OrchestratorFacts.

(* ================================================================== *)
(** ** The walk on the mock endpoints *)
(* ================================================================== *)

Module Runs.
Import Mock.

Local Open Scope list_scope.

(** C1, where the code departs from it: the directory [sub] answers with a
    page that is not the last one and names 25 as the start of the next.
    The call that searches [sub] (depth 1) then asks for [R?start=25], the
    next page of the root listing, and never for [R/sub?start=25]; the file
    on the second page of [sub] is not found. *)
Theorem C1_subdirectory_follow_up_asks_root :
  let (st, w) := find_pom_xml_in_repo no_repr paged_subdir "R" "R" 3 [] in
  st = Returned
  /\ sent (trace w) = [(0, "R"); (1, "R/sub"); (1, "R?start=25")]
  /\ ~ In "R/sub?start=25" (requests (trace w))
  /\ pom_files w = [JStr "sub/pom.xml"; JStr "pom.xml"]
  /\ ~ In (JStr "sub/deep/pom.xml") (pom_files w).
Proof.
  vm_compute; repeat split; try reflexivity; intros H;
    repeat (destruct H as [H|H]; [discriminate|]); exact H.
Qed.

(** C3, where the code departs from it: on the root page of [paged_subdir]
    the directory [sub] comes before the entry [pom.xml].  The first page of
    [sub] says that more pages follow.  The search of [sub] returns after
    two requests, the second one for a page of the root listing, and the
    root's loop takes [pom.xml] although the second page of [sub] was never
    asked for; it is not asked for later either. *)
Theorem C3_subdirectory_pages_not_drained :
  let (st, w) := find_pom_xml_in_repo no_repr paged_subdir "R" "R" 3 [] in
  st = Returned
  /\ is_last_page (paged_subdir ["R"] "R/sub") = false
  /\ (exists before,
        trace w = before ++ [Visit 0 (JStr "pom.xml")]
        /\ sent before = [(0, "R"); (1, "R/sub"); (1, "R?start=25")]
        /\ visited before = [dir_entry "sub"; JStr "sub/pom.xml"])
  /\ ~ In "R/sub?start=25" (requests (trace w)).
Proof.
  vm_compute; split; [reflexivity|]; split; [reflexivity|]; split.
  - match goal with
    | |- exists before, ?t = _ /\ _ => exists (removelast t)
    end.
    vm_compute; repeat split; reflexivity.
  - intros H; repeat (destruct H as [H|H]; [discriminate|]); exact H.
Qed.

(** At the root the next page is asked from the root listing. *)
Example root_follow_up :
  sent (trace (snd (find_pom_xml_in_repo no_repr overlapping "R" "R" 3 [])))
  = [(0, "R"); (0, "R?start=1")].
Proof. reflexivity. Qed.

(** C2 as worded fails: for the content [</maven-parent><maven-parent>] the
    report gets a row for maven-parent with the empty value, and that content
    has no opening marker followed by a closing one. *)
Lemma C2_counterexample :
  exists r x,
    scan_all no_repr two_repos two_repos_raw 3 base_api_url version_tags
      [("EVT", "attendee-order")] (mkReport [] [] []) = Some r
    /\ In x (rows r)
    /\ ~ row_enclosed no_repr two_repos_raw base_api_url x.
Proof.
  eexists _, (mkRow "EVT" "attendee-order" (JStr "core/pom.xml")
                "maven-parent" EmptyString).
  split; [vm_compute; reflexivity|].
  split; [simpl; auto|].
  intros (content & Hf & pre & mid & post & Hc & _).
  unfold fetched_for in Hf; vm_compute in Hf; injection Hf as <-.
  cbn [row_tag] in Hc.
  pose proof (f_equal String.length Hc) as Hlen.
  rewrite !PyStrFacts.str_length_app in Hlen.
  change (String.length "</maven-parent><maven-parent>") with 29 in Hlen.
  change (String.length (start_tag "maven-parent")) with 14 in Hlen.
  change (String.length (end_tag "maven-parent")) with 15 in Hlen.
  destruct pre as [|c pre]; [|simpl in Hlen; lia].
  discriminate Hc.
Qed.

(** The amended C2 on the first repository of [two_repos]. *)
Lemma C2_witness :
  In (mkRow "EVT" "attendee-order" (JStr "pom.xml") "maven-parent" "7") []
  \/ In ("EVT", "attendee-order") [("EVT", "attendee-order")]
     /\ row_from_first_markers no_repr two_repos_raw base_api_url version_tags
          (mkRow "EVT" "attendee-order" (JStr "pom.xml") "maven-parent" "7").
Proof.
  apply (C2_rows_come_from_first_markers no_repr two_repos two_repos_raw 3
           base_api_url version_tags [("EVT", "attendee-order")]
           (mkReport [] [] [])
           (mkReport (trace evt_walk)
              (task_rows no_repr two_repos_raw "EVT" "attendee-order"
                 base_api_url version_tags (pom_files evt_walk))
              [ErrorProcessingFile "EVT" "attendee-order"
                 (JStr "gone/pom.xml") (TransportError "404"); BlankLine])).
  - vm_compute; reflexivity.
  - vm_compute; auto.
Defined.

(** The order on the root page of [nested], around its directory [m]. *)
Example nested_subdirectory_order :
  exists t_sub t_post,
    trace nested_w2 = trace nested_w1 ++ Visit 0 (dir_entry "m") :: t_sub
    /\ trace nested_w3 = trace nested_w2 ++ t_post
    /\ drained (level_pages 1 t_sub)
    /\ pom_files nested_w2
       = pom_files nested_w1 ++ flat_map discovered (visited t_sub)
    /\ pom_files nested_w3
       = pom_files nested_w2 ++ flat_map discovered (visited t_post).
Proof.
  apply (proj2 (subdirectory_searched_before_later_entries no_repr nested
                  "R" "R" 2 0 [JStr "pom.xml"] [JStr "z/pom.xml"]
                  (dir_entry "m") (JStr "m") (mkWorld [] []) eq_refl)
           nested_w1 nested_w2 nested_w3);
    vm_compute; reflexivity.
Qed.

(** C4 on a content with whitespace around the value. *)
Lemma C4_witness :
  exists versions value,
    find_version_tags_from_pom
      "<mono-java.version>  2.1.5 </mono-java.version>"
      ["mono-java.version"] = Some versions
    /\ dict_get versions "mono-java.version" = Some value
    /\ value = "2.1.5"%string
    /\ (exists l r,
          "  2.1.5 "%string = (l ++ value ++ r)%string
          /\ all_space l = true /\ all_space r = true)
    /\ not_space (first_char value)
    /\ not_space (last_char value).
Proof.
  refine (proj1 (proj1 C4_value_between_first_markers
                   "<mono-java.version>  2.1.5 </mono-java.version>"%string
                   ["mono-java.version"%string] "mono-java.version"%string
                   _ _ _)).
  - simpl; auto.
  - exists 0, EmptyString, "  2.1.5 </mono-java.version>"%string; split;
      reflexivity.
  - exists 27, "<mono-java.version>  2.1.5 "%string, EmptyString; split;
      reflexivity.
Defined.

(** C5 on a content whose closing marker comes first. *)
Lemma C5_witness :
  exists versions,
    find_version_tags_from_pom "</v> <v>" ["v"] = Some versions
    /\ dict_get versions "v"
       = Some (PyStr.strip (PyStr.slice "</v> <v>" (5 + 3) 0))
    /\ dict_get versions "v" = Some EmptyString.
Proof.
  apply (C5_closing_marker_first "</v> <v>" ["v"%string] "v").
  - simpl; auto.
  - exists 5, "</v> "%string, EmptyString; split; reflexivity.
  - exists 0, EmptyString, " <v>"%string; split; reflexivity.
  - vm_compute; reflexivity.
Defined.

(** C6 on a content without the requested tag. *)
Lemma C6_witness :
  find_version_tags_from_pom "<postgresql.version>42.3.1" ["mssql.version"]
  = None.
Proof.
  apply (proj2 (proj2 (proj2
           (C6_missing_markers_skipped_and_sentinel
              "<postgresql.version>42.3.1" ["mssql.version"%string])))).
  intros H; apply PyStrFacts.find_present in H; vm_compute in H.
  now apply H.
Defined.

(** C7 on [overlapping_tree]: the entry both pages carry is listed twice,
    and the file of the directory comes where the directory stands. *)
Lemma C7_witness :
  exists t,
    trace (snd (find_pom_xml_in_repo no_repr overlapping_tree "R" "R" 3 []))
    = [] ++ t
    /\ [JStr "a/pom.xml"; JStr "m/pom.xml"; JStr "b/pom.xml";
        JStr "c/pom.xml"; JStr "c/pom.xml"]
       = flat_map discovered (visited t)
    /\ 5 = length (filter is_pom_entry (visited t))
    /\ (forall d, pages_entries (level_pages d t) = Some (visits_at d t))
    /\ exists all,
         pages_entries (answers t) = Some all
         /\ Permutation (visited t) all
         /\ Permutation
              [JStr "a/pom.xml"; JStr "m/pom.xml"; JStr "b/pom.xml";
               JStr "c/pom.xml"; JStr "c/pom.xml"]
              (flat_map discovered all).
Proof.
  apply (proj1 (C7_pom_entries_recorded_in_discovery_order no_repr
                  overlapping_tree "R" "R" 3 []
                  (snd (find_pom_xml_in_repo no_repr overlapping_tree
                          "R" "R" 3 []))
                  eq_refl)).
Defined.

(** C9 on the file of [two_repos] whose content cannot be fetched. *)
Lemma C9_witness :
  exists r',
    scan_repository no_repr two_repos two_repos_raw 3 base_api_url
      version_tags (mkReport [] [] []) ("EVT", "attendee-order") = Some r'
    /\ rows r'
       = [] ++ task_rows no_repr two_repos_raw "EVT" "attendee-order"
                 base_api_url version_tags
                 [JStr "pom.xml"; JStr "core/pom.xml"]
            ++ task_rows no_repr two_repos_raw "EVT" "attendee-order"
                 base_api_url version_tags [].
Proof.
  apply (proj2 (proj2
           (C9_failed_file_task_is_isolated no_repr two_repos two_repos_raw 3
              base_api_url version_tags (mkReport [] [] []) "EVT"
              "attendee-order" evt_walk
              [JStr "pom.xml"; JStr "core/pom.xml"] [] (JStr "gone/pom.xml")
              (TransportError "404") eq_refl eq_refl eq_refl))).
Defined.

(** C10 on a dict of an unknown type followed by a number. *)
Lemma C10_witness :
  for_entries no_repr "R" nested_search 0
    [submodule_entry; JInt 7; JStr "pom.xml"] (mkWorld [] [])
  = for_entries no_repr "R" nested_search 0 [JInt 7; JStr "pom.xml"]
      (record (Visit 0 submodule_entry) (mkWorld [] [])).
Proof.
  apply (proj2 (proj2
           (C10_other_entries_are_skipped no_repr "R" nested_search 0
              submodule_entry [JInt 7; JStr "pom.xml"] (mkWorld [] [])
              eq_refl))).
Defined.

End Runs.

(* ================================================================== *)
(** ** More on the version extractor *)
(* ================================================================== *)

Section ExtractorMore.
Import PyStr PyStrFacts.

Local Open Scope list_scope.

Lemma dict_set_stored_in (content : string) (ks : list string) (t : string) :
  In t ks ->
  dict_set (map (stored_pair content) ks) t (version_value content t)
  = map (stored_pair content) ks.
Proof.
  induction ks as [|k ks IH]; simpl; [contradiction|].
  destruct (String.eqb_spec k t) as [->|Hne]; [reflexivity|].
  intros [H|H]; [congruence | now rewrite IH].
Qed.

Lemma dict_set_stored_new (content : string) (ks : list string) (t : string) :
  ~ In t ks ->
  dict_set (map (stored_pair content) ks) t (version_value content t)
  = map (stored_pair content) (ks ++ [t]).
Proof.
  induction ks as [|k ks IH]; simpl; [reflexivity|].
  intros H; destruct (String.eqb_spec k t) as [->|Hne].
  - exfalso; apply H; now left.
  - rewrite IH; [reflexivity | intros Hin; apply H; now right].
Qed.

(** The loop over the tags, from a dict that holds the pairs of [ks]. *)
Lemma scan_all_tags_stored (content : string) (tags ks : list string) :
  fold_left (scan_tag content) tags (map (stored_pair content) ks)
  = map (stored_pair content)
      (ks ++ first_occurrences ks (filter (both_found content) tags)).
Proof.
  revert ks; induction tags as [|t tags IH]; intros ks; simpl.
  - now rewrite app_nil_r.
  - rewrite scan_tag_eq; destruct (both_found content t) eqn:B; simpl;
      [|apply IH].
    destruct (existsb (String.eqb t) ks) eqn:E.
    + apply existsb_eqb_In in E.
      rewrite dict_set_stored_in by exact E. apply IH.
    + assert (Hn : ~ In t ks)
        by (intros Hin; apply existsb_eqb_In in Hin; congruence).
      rewrite dict_set_stored_new by exact Hn.
      rewrite IH, <- List.app_assoc; reflexivity.
Qed.

Lemma first_occurrences_distinct (l seen : list string) :
  NoDup l -> (forall x, In x l -> ~ In x seen) ->
  first_occurrences seen l = l.
Proof.
  revert seen; induction l as [|t l IH]; intros seen Hnd Hfresh; simpl;
    [reflexivity|].
  inversion Hnd as [|? ? Ht Hl]; subst.
  destruct (existsb (String.eqb t) seen) eqn:E.
  - apply existsb_eqb_In in E; exfalso; apply (Hfresh t); [now left | exact E].
  - f_equal; apply IH; [exact Hl|].
    intros x Hx Hin; apply in_app_or in Hin as [Hin|[<-|[]]].
    + apply (Hfresh x); [now right | exact Hin].
    + contradiction.
Qed.

Lemma first_occurrences_spec (l seen : list string) :
  NoDup (first_occurrences seen l)
  /\ forall x, In x (first_occurrences seen l) <-> In x l /\ ~ In x seen.
Proof.
  revert seen; induction l as [|t l IH]; intros seen; simpl.
  - split; [constructor | intros x; tauto].
  - destruct (existsb (String.eqb t) seen) eqn:E.
    + apply existsb_eqb_In in E; destruct (IH seen) as [Hnd Hin].
      split; [exact Hnd|]; intros x; rewrite Hin; split.
      * intros [H1 H2]; auto.
      * intros [[<-|H1] H2]; [contradiction | auto].
    + assert (Hn : ~ In t seen)
        by (intros Hin; apply existsb_eqb_In in Hin; congruence).
      destruct (IH (seen ++ [t])) as [Hnd Hin]; split.
      * constructor; [|exact Hnd].
        rewrite Hin; intros [_ H]; apply H, in_or_app; right; now left.
      * intros x; split.
        -- intros [<-|H]; [auto|].
           apply Hin in H as [H1 H2]; split; [now right|].
           intros Hs; apply H2, in_or_app; now left.
        -- intros [[<-|H1] H2]; [now left|].
           destruct (String.eqb_spec t x) as [->|Hne]; [now left|right].
           apply Hin; split; [exact H1|].
           intros Hs; apply in_app_or in Hs as [Hs|[Hs|[]]]; auto.
Qed.

(** The result of the loop over the tags, by the stored tags. *)
Lemma find_version_tags_from_pom_stored (content : string)
    (tags : list string) :
  find_version_tags_from_pom content tags
  = match stored_tags content tags with
    | [] => None
    | ks => Some (map (stored_pair content) ks)
    end.
Proof.
  unfold find_version_tags_from_pom, stored_tags.
  pose proof (scan_all_tags_stored content tags []) as H; simpl in H.
  rewrite H.
  now destruct (first_occurrences [] (filter (both_found content) tags)).
Qed.

Lemma stored_tags_spec (content : string) (tags : list string) :
  NoDup (stored_tags content tags)
  /\ forall t, In t (stored_tags content tags)
               <-> In t tags /\ both_found content t = true.
Proof.
  unfold stored_tags; split; [apply first_occurrences_spec|].
  intros t; rewrite (proj2 (first_occurrences_spec _ [])), filter_In.
  simpl; tauto.
Qed.

(** X1: the result of the extractor, in full.  It is the list of the pairs
    (tag, value) for the requested tags whose two markers occur in the
    content, in the order of the request, a tag requested twice kept once at
    its first place; it is [None] when that list is empty.  The keys of a
    result are distinct, and when the requested tags are distinct the stored
    tags are simply those with both markers. *)
Theorem extractor_result_in_request_order (content : string)
    (tags : list string) :
  find_version_tags_from_pom content tags
  = match stored_tags content tags with
    | [] => None
    | ks => Some (map (stored_pair content) ks)
    end
  /\ NoDup (stored_tags content tags)
  /\ (forall t, In t (stored_tags content tags)
                <-> In t tags /\ both_found content t = true)
  /\ (NoDup tags ->
      stored_tags content tags = filter (both_found content) tags).
Proof.
  split; [apply find_version_tags_from_pom_stored|].
  split; [apply stored_tags_spec|]; split; [apply stored_tags_spec|].
  intros Hnd; apply first_occurrences_distinct; [|intros x _ []].
  now apply NoDup_filter.
Qed.

(** X2: every value of a result is trimmed: it neither starts nor ends with
    a whitespace character. *)
Theorem extracted_values_are_trimmed (content : string) (tags : list string)
    (versions : dict) (tag value : string) :
  find_version_tags_from_pom content tags = Some versions ->
  In (tag, value) versions ->
  not_space (first_char value) /\ not_space (last_char value).
Proof.
  intros Hv Hin.
  apply (find_version_tags_from_pom_in _ _ _ _ _ Hv) in Hin as (_ & _ & ->).
  unfold version_value.
  destruct (strip_spec
              (slice content
                 (find content (start_tag tag)
                  + Z.of_nat (String.length (start_tag tag)))
                 (find content (end_tag tag))))
    as (l & r & _ & _ & _ & Hf & Hl).
  now split.
Qed.

Lemma length_take_le (n : nat) (s : string) :
  String.length (take n s) <= n.
Proof.
  revert s; induction n as [|n IH]; intros [|c s]; simpl; auto with arith.
Qed.

Lemma length_take_inside (n : nat) (s : string) :
  n <= String.length s -> String.length (take n s) = n.
Proof.
  revert s; induction n as [|n IH]; intros [|c s]; simpl; intros H;
    try reflexivity; try lia.
  now rewrite IH by lia.
Qed.

Lemma occurs_at_bound (k : nat) (s sub : string) :
  occurs_at k s sub -> k + String.length sub <= String.length s.
Proof. intros (pre & post & -> & <-); rewrite !str_length_app; lia. Qed.

(** An occurrence inside a part of a string is an occurrence in the string. *)
Lemma occurs_at_inside (a m b sub : string) (k : nat) :
  occurs_at k m sub -> occurs_at (String.length a + k) (a ++ m ++ b) sub.
Proof.
  intros (pre & post & -> & <-).
  exists (a ++ pre)%string, (post ++ b)%string; split.
  - now rewrite !str_app_assoc.
  - apply str_length_app.
Qed.

(** A slice with its bounds in order, as a part of the string. *)
Lemma slice_part (s : string) (a b : nat) :
  a <= b -> b <= String.length s ->
  s = (take a s ++ slice s (Z.of_nat a) (Z.of_nat b) ++ drop b s)%string
  /\ String.length (take a s) = a
  /\ String.length (slice s (Z.of_nat a) (Z.of_nat b)) <= b - a.
Proof.
  intros Hab Hb; rewrite slice_inside by assumption; split; [|split].
  - rewrite <- (take_drop a s) at 1; f_equal.
    rewrite <- (take_drop (b - a) (drop a s)) at 1; f_equal.
    rewrite drop_drop; f_equal; lia.
  - apply length_take_inside; lia.
  - apply length_take_le.
Qed.

(** X3: a value of a result never contains the closing marker of its tag:
    the text is cut at the first closing marker of the content. *)
Theorem extracted_value_has_no_closing_marker (content : string)
    (tags : list string) (versions : dict) (tag value : string) :
  find_version_tags_from_pom content tags = Some versions ->
  In (tag, value) versions ->
  ~ occurs value (end_tag tag).
Proof.
  intros Hv Hin [k Hk].
  apply (find_version_tags_from_pom_in _ _ _ _ _ Hv) in Hin as (_ & Hb & ->).
  apply both_found_true in Hb as [Hs He].
  destruct (find_first _ _ _ eq_refl Hs) as (_ & Hi & _).
  destruct (find_first _ _ _ eq_refl He) as (Oj & Hj & Fj).
  unfold version_value in Hk.
  set (a := (find content (start_tag tag)
             + Z.of_nat (String.length (start_tag tag)))%Z) in *.
  set (j := find content (end_tag tag)) in *.
  assert (Hend : 0 < String.length (end_tag tag)) by (simpl; lia).
  destruct (Z_le_gt_dec j a) as [Hle|Hgt].
  - rewrite slice_crossed in Hk by lia.
    apply occurs_at_bound in Hk; simpl in Hk; lia.
  - destruct (strip_spec (slice content a j)) as (l & r & Hsl & _).
    apply (occurs_at_inside l _ r) in Hk; rewrite <- Hsl in Hk.
    pose proof (occurs_at_bound _ _ _ Oj) as Hjn.
    destruct (slice_part content (Z.to_nat a) (Z.to_nat j))
      as (Hc & Hla & Hls); [lia | lia |].
    rewrite !Z2Nat.id in Hc, Hls by lia.
    pose proof (occurs_at_bound _ _ _ Hk) as Hkb.
    apply (occurs_at_inside (take (Z.to_nat a) content) _
             (drop (Z.to_nat j) content)) in Hk.
    rewrite <- Hc, Hla in Hk.
    apply (Fj _) in Hk; [exact Hk|].
    clearbody a j; lia.
Qed.

End ExtractorMore.

(* ================================================================== *)
(** ** More on the walker *)
(* ================================================================== *)

Section WalkerMore.

Variable repr : json -> string.
Variable server : list string -> string -> response.
Variable api_url base_url : string.

Local Abbreviation visit_entry := (visit_entry repr base_url).
Local Abbreviation for_entries := (for_entries repr base_url).
Local Abbreviation recursive_search :=
  (recursive_search repr server api_url base_url).
Local Abbreviation find_pom_xml_in_repo :=
  (find_pom_xml_in_repo repr server api_url base_url).
Local Abbreviation flat_listing := (flat_listing repr server api_url).
Local Abbreviation next_page_url := (next_page_url repr api_url).

Local Open Scope list_scope.

#[local] Arguments Py.eq_str : simpl never.
#[local] Arguments Py.lookup : simpl never.
#[local] Arguments PyStr.endswith : simpl never.

Lemma requests_visits (depth : nat) (names : list string) :
  requests (map (fun name => Visit depth (JStr name)) names) = [].
Proof. induction names; simpl; auto. Qed.

Lemma visited_visits (depth : nat) (names : list string) :
  visited (map (fun name => Visit depth (JStr name)) names)
  = map JStr names.
Proof. induction names; simpl; [reflexivity | now f_equal]. Qed.

Lemma for_entries_cons (search : string -> walk) (depth : nat) (e : json)
    (rest : list json) (w : world) :
  for_entries search depth (e :: rest) w
  = match visit_entry search e (record (Visit depth e) w) with
    | (Returned, w1) => for_entries search depth rest w1
    | other => other
    end.
Proof. reflexivity. Qed.

(** The loop over a page of plain names: no request, no exception. *)
Lemma for_entries_plain (search : string -> walk) (depth : nat)
    (names : list string) :
  forall w,
    for_entries search depth (map JStr names) w
    = (Returned, after_names depth names w).
Proof.
  unfold after_names, pom_names.
  induction names as [|name names IH]; intros [t pf]; simpl.
  - now rewrite !app_nil_r.
  - unfold andThen; simpl.
    destruct (PyStr.endswith name "pom.xml"); rewrite IH; simpl;
      now rewrite <- !List.app_assoc.
Qed.

(** A page whose entries can be listed is a dict, so its pagination fields
    can be read. *)
Lemma page_entries_dict (data : json) (entries : list json) :
  page_entries data = inr entries ->
  exists fields, data = JObj fields.
Proof. destruct data; try discriminate; eauto. Qed.

Lemma is_last_page_get (fields : list (string * json)) :
  exists last,
    Py.get (JObj fields) "isLastPage" JNull = inr last
    /\ is_last_page (Body (JObj fields)) = Py.truthy last.
Proof. unfold is_last_page; simpl; eauto. Qed.

(** The walk of a flat listing, page after page. *)
Lemma recursive_search_flat (depth : nat) (last : list string)
    (pages : list (list string * json)) :
  forall fuel url w,
    url <> EmptyString ->
    flat_listing (requests (trace w)) url pages last ->
    length pages < fuel ->
    exists w',
      recursive_search fuel depth (Some url) w = (Returned, w')
      /\ pom_files w'
         = pom_files w
             ++ map JStr (pom_names (concat (map fst pages) ++ last))
      /\ requests (trace w')
         = requests (trace w) ++ url :: map next_page_url pages
      /\ visited (trace w')
         = visited (trace w) ++ map JStr (concat (map fst pages) ++ last).
Proof.
  induction pages as [|[names next] pages IH]; intros fuel url w Hne Hl Hf;
    (destruct fuel as [|fuel]; [simpl in Hf; lia|]);
    (destruct url as [|c u]; [congruence|]);
    rewrite recursive_search_page; cbv zeta.
  - destruct Hl as (data & -> & Hv & Hlast).
    destruct (page_entries_dict _ _ Hv) as (fields & ->).
    destruct (is_last_page_get fields) as (lastv & Hg & Ht).
    unfold lift at 1; unfold page_entries in Hv; rewrite Hv.
    unfold andThen; rewrite for_entries_plain.
    unfold lift; rewrite Hg, <- Ht, Hlast.
    rewrite (proj1 (recursive_search_stop _ _ _ _ fuel depth _)).
    eexists; split; [reflexivity|]; simpl.
    rewrite !requests_app, !visited_app, requests_visits, visited_visits.
    simpl; rewrite !app_nil_r; auto.
  - destruct Hl as (data & -> & Hv & Hlast & Hn & Hrest).
    destruct (page_entries_dict _ _ Hv) as (fields & ->).
    destruct (is_last_page_get fields) as (lastv & Hg & Ht).
    unfold lift at 1; unfold page_entries in Hv; rewrite Hv.
    unfold andThen; rewrite for_entries_plain.
    unfold lift; rewrite Hg, <- Ht, Hlast, Hn.
    destruct (IH fuel (api_url ++ "?start=" ++ py_str repr next)%string
                (after_names depth names
                   (record (Request depth (String c u) (Body (JObj fields)))
                      w)))
      as (w' & Hw & Hp & Hr & Hvis).
    + destruct (next_url_nonempty api_url (py_str repr next))
        as (c' & u' & E); rewrite E; discriminate.
    + unfold after_names, record; cbn [trace pom_files].
      rewrite !requests_app, requests_visits, app_nil_r.
      exact Hrest.
    + simpl in Hf; lia.
    + exists w'; split; [exact Hw|].
      rewrite Hp, Hr, Hvis; unfold after_names, record; cbn [trace pom_files].
      rewrite !requests_app, !visited_app, requests_visits, visited_visits.
      cbn [map concat fst]; rewrite <- !List.app_assoc.
      split; [|split].
      * unfold pom_names; now rewrite (filter_app _ names), map_app.
      * cbn [requests flat_map app]; reflexivity.
      * cbn [visited flat_map app]; now rewrite (map_app _ names).
Qed.

(** X4: a flat listing served in pages from the root URL is walked in full.
    With more fuel than there are pages before the last one, the walk
    returns; the list it returns holds, in order, the names of all the pages
    that end with pom.xml; one request is sent per page, the first to the
    root URL and each next one to the root URL with the start the page
    before announced. *)
Theorem flat_listing_walked_in_full (fuel : nat) (t0 : list event)
    (pages : list (list string * json)) (last : list string) :
  api_url <> EmptyString ->
  flat_listing (requests t0) api_url pages last ->
  length pages < fuel ->
  exists w,
    find_pom_xml_in_repo fuel t0 = (Returned, w)
    /\ pom_files w = map JStr (pom_names (concat (map fst pages) ++ last))
    /\ requests (trace w)
       = requests t0 ++ api_url :: map next_page_url pages.
Proof.
  intros Hne Hl Hf.
  destruct (recursive_search_flat 0 last pages fuel api_url (mkWorld t0 [])
              Hne Hl Hf) as (w & Hw & Hp & Hr & _).
  exists w; split; [exact Hw|]; split; [exact Hp | exact Hr].
Qed.

Lemma asks_under_refl (w : world) : asks_under api_url base_url w w.
Proof. exists []; split; [now rewrite app_nil_r | constructor]. Qed.

Lemma asks_under_trans (w w1 w2 : world) :
  asks_under api_url base_url w w1 -> asks_under api_url base_url w1 w2 ->
  asks_under api_url base_url w w2.
Proof.
  intros (t1 & T1 & F1) (t2 & T2 & F2); exists (t1 ++ t2); split.
  - now rewrite T2, T1, List.app_assoc.
  - rewrite requests_app; apply Forall_app; now split.
Qed.

Lemma asks_under_visit (depth : nat) (e : json) (w : world) :
  asks_under api_url base_url w (record (Visit depth e) w).
Proof. exists [Visit depth e]; split; [reflexivity | constructor]. Qed.

Lemma visit_entry_asks_under (search : string -> walk) (e : json)
    (w : world) :
  (forall sub w1, under base_url sub ->
                  asks_under api_url base_url w1 (snd (search sub w1))) ->
  asks_under api_url base_url w (snd (visit_entry search e w)).
Proof.
  intros Hs.
  assert (Hsame : asks_under api_url base_url w w) by apply asks_under_refl.
  assert (Happ : forall v, asks_under api_url base_url w (append_pom v w))
    by (intros v; exists []; split; simpl;
        [now rewrite app_nil_r | constructor]).
  destruct e as [| | | s | |fields]; try exact Hsame.
  - simpl; destruct (PyStr.endswith s "pom.xml");
      [exact (Happ _) | exact Hsame].
  - unfold visit_entry, lift.
    destruct (Py.getitem (JObj fields) "type") as [e0|ty]; [exact Hsame|].
    destruct (Py.eq_str ty "DIRECTORY").
    + destruct (p <- Py.getitem (JObj fields) "path";;
                Py.getitem p "toString") as [e0|ts]; [exact Hsame|].
      apply Hs; now exists ("/" ++ py_str repr ts)%string.
    + destruct (Py.eq_str ty "FILE"); [|exact Hsame].
      destruct (Py.getitem (JObj fields) "name") as [e0|name];
        [exact Hsame|].
      destruct (Py.eq_str name "pom.xml"); [|exact Hsame].
      destruct (p <- Py.getitem (JObj fields) "path";;
                Py.getitem p "toString") as [e0|ts];
        [exact Hsame | exact (Happ _)].
Qed.

Lemma for_entries_asks_under (search : string -> walk) (depth : nat)
    (entries : list json) :
  (forall sub w1, under base_url sub ->
                  asks_under api_url base_url w1 (snd (search sub w1))) ->
  forall w,
    asks_under api_url base_url w (snd (for_entries search depth entries w)).
Proof.
  intros Hs; induction entries as [|e entries IH]; intros w.
  - apply asks_under_refl.
  - rewrite for_entries_cons.
    pose proof (visit_entry_asks_under search e (record (Visit depth e) w) Hs)
      as Hv.
    destruct (visit_entry search e (record (Visit depth e) w)) as [st w1].
    simpl in Hv.
    assert (Hw1 : asks_under api_url base_url w w1)
      by (eapply asks_under_trans; [apply asks_under_visit | exact Hv]).
    destruct st; simpl; auto.
    eapply asks_under_trans; [exact Hw1 | apply IH].
Qed.

Lemma recursive_search_asks_under (fuel : nat) :
  forall depth url w,
    under api_url url \/ under base_url url ->
    asks_under api_url base_url w
      (snd (recursive_search fuel depth (Some url) w)).
Proof.
  induction fuel as [|fuel IH]; intros depth url w Hu;
    (destruct url as [|c u]; [apply asks_under_refl|]).
  - apply asks_under_refl.
  - rewrite recursive_search_page; cbv zeta.
    set (url := String c u) in *.
    set (answer := server (requests (trace w)) url).
    assert (Hreq : asks_under api_url base_url w
                     (record (Request depth url answer) w))
      by (exists [Request depth url answer]; split; [reflexivity|];
          simpl; constructor; [exact Hu | constructor]).
    destruct answer as [e|data]; [exact Hreq|].
    unfold lift at 1.
    destruct (vs <- Py.get data "values" (JArr []);; Py.iter vs)
      as [e|entries]; [exact Hreq|].
    unfold andThen.
    pose proof (for_entries_asks_under
                  (fun sub => recursive_search fuel (S depth) (Some sub))
                  depth entries
                  (fun sub w1 H => IH (S depth) sub w1 (or_intror H))
                  (record (Request depth url (Body data)) w)) as Hfor.
    destruct (for_entries _ depth entries _) as [st w2]; simpl in Hfor.
    assert (Hw2 : asks_under api_url base_url w w2)
      by (eapply asks_under_trans; [exact Hreq | exact Hfor]).
    destruct st; simpl; auto.
    unfold lift.
    destruct (Py.get data "isLastPage" JNull) as [e|last]; simpl; auto.
    destruct (Py.truthy last).
    + now rewrite (proj1 (recursive_search_stop _ _ _ _ fuel depth w2)).
    + destruct (Py.get data "nextPageStart" JNull) as [e|next]; simpl; auto.
      eapply asks_under_trans; [exact Hw2|].
      apply IH; left; now exists ("?start=" ++ py_str repr next)%string.
Qed.

(** A call with fuel and a URL sends the request for that URL first,
    however it ends. *)
Lemma recursive_search_first_request (fuel depth : nat) (c : ascii)
    (u : string) (w : world) :
  exists answer t,
    trace (snd (recursive_search (S fuel) depth (Some (String c u)) w))
    = trace w ++ Request depth (String c u) answer :: t.
Proof.
  rewrite recursive_search_page; cbv zeta.
  set (url := String c u) in *.
  set (answer := server (requests (trace w)) url).
  exists answer.
  assert (Hfrom : forall w',
             asks_under api_url base_url (record (Request depth url answer) w)
               w' ->
             exists t, trace w' = trace w ++ Request depth url answer :: t).
  { intros w' (t & T & _); exists t; rewrite T; simpl.
    now rewrite <- app_assoc. }
  assert (Hreq := asks_under_refl (record (Request depth url answer) w)).
  destruct answer as [e|data]; [now apply Hfrom|].
  unfold lift at 1.
  destruct (vs <- Py.get data "values" (JArr []);; Py.iter vs)
    as [e|entries]; [now apply Hfrom|].
  unfold andThen.
  pose proof (for_entries_asks_under
                (fun sub => recursive_search fuel (S depth) (Some sub))
                depth entries
                (fun sub w1 H =>
                   recursive_search_asks_under fuel (S depth) sub w1
                     (or_intror H))
                (record (Request depth url (Body data)) w)) as Hfor.
  destruct (for_entries _ depth entries _) as [st w2]; simpl in Hfor.
  destruct st; simpl; try (now apply Hfrom).
  unfold lift.
  destruct (Py.get data "isLastPage" JNull) as [e|last]; simpl;
    [now apply Hfrom|].
  destruct (Py.truthy last).
  - rewrite (proj1 (recursive_search_stop _ _ _ _ fuel depth w2)).
    now apply Hfrom.
  - destruct (Py.get data "nextPageStart" JNull) as [e|next]; simpl;
      [now apply Hfrom|].
    apply Hfrom; eapply asks_under_trans; [exact Hfor|].
    apply recursive_search_asks_under; left.
    now exists ("?start=" ++ py_str repr next)%string.
Qed.

(** X5: a page that carries neither [isLastPage] nor [nextPageStart] is
    taken as not the last one, and the same call goes on with the root URL
    and the start [None]. *)
Theorem page_without_pagination_fields (fuel depth : nat) (c : ascii)
    (u : string) (w w2 : world) (fields : list (string * json))
    (entries : list json) :
  let url := String c u in
  server (requests (trace w)) url = Body (JObj fields) ->
  Py.lookup fields "isLastPage" = None ->
  Py.lookup fields "nextPageStart" = None ->
  page_entries (JObj fields) = inr entries ->
  for_entries (fun sub => recursive_search fuel (S depth) (Some sub)) depth
    entries (record (Request depth url (Body (JObj fields))) w)
  = (Returned, w2) ->
  recursive_search (S fuel) depth (Some url) w
  = recursive_search fuel depth (Some (api_url ++ "?start=None")%string) w2.
Proof.
  intros url Hs Hl Hn Hv Hfor.
  apply (recursive_search_next_page repr server api_url base_url fuel depth
           c u w w2 (JObj fields) JNull JNull entries Hs Hv Hfor);
    unfold Py.get; try rewrite Hl; try rewrite Hn; reflexivity.
Qed.

(** X6: the walk has no bound of its own.  Against an endpoint that answers
    every request with the same page of plain names that is not a last page,
    the call never ends: whatever the fuel, it is used up, with one request
    per unit, and the names of the page that end with pom.xml are listed
    again at every round. *)
Theorem endless_pages_never_return (data : json) (names : list string) :
  (forall sent url, server sent url = Body data) ->
  page_entries data = inr (map JStr names) ->
  is_last_page (Body data) = false ->
  forall fuel depth url w,
    url <> EmptyString ->
    exists w',
      recursive_search fuel depth (Some url) w = (OutOfFuel, w')
      /\ length (requests (trace w')) = length (requests (trace w)) + fuel
      /\ pom_files w'
         = pom_files w ++ concat (repeat (map JStr (pom_names names)) fuel).
Proof.
  intros Hs Hv Hlast.
  destruct (page_entries_dict _ _ Hv) as (fields & ->).
  destruct (is_last_page_get fields) as (lastv & Hg & Ht).
  induction fuel as [|fuel IH]; intros depth url w Hne;
    (destruct url as [|c u]; [congruence|]).
  - exists w; simpl; rewrite Nat.add_0_r, app_nil_r; auto.
  - rewrite recursive_search_page; cbv zeta; rewrite Hs.
    unfold lift at 1; unfold page_entries in Hv; rewrite Hv.
    unfold andThen; rewrite for_entries_plain.
    unfold lift; rewrite Hg, <- Ht, Hlast.
    cbn [Py.get ok].
    set (next := match Py.lookup fields "nextPageStart" with
                 | Some x => x
                 | None => JNull
                 end).
    destruct (IH depth (api_url ++ "?start=" ++ py_str repr next)%string
                (after_names depth names
                   (record (Request depth (String c u) (Body (JObj fields)))
                      w)))
      as (w' & Hw & Hr & Hp).
    + destruct (next_url_nonempty api_url (py_str repr next))
        as (c' & u' & E); rewrite E; discriminate.
    + exists w'; split; [exact Hw|]; rewrite Hr, Hp.
      unfold after_names, record; cbn [trace pom_files].
      rewrite !requests_app, requests_visits, app_nil_r, !length_app.
      cbn [requests flat_map app length repeat concat].
      rewrite <- List.app_assoc; split; [lia | reflexivity].
Qed.

(** An entry that cannot be handled raises at once and leaves the state as
    it was. *)
Lemma visit_entry_error (search : string -> walk) (e : json) (ex : exn)
    (w : world) :
  entry_error e = Some ex -> visit_entry search e w = (Raised ex, w).
Proof.
  destruct e as [| | | s | |fields]; try discriminate.
  unfold entry_error, entry_path, visit_entry, lift.
  destruct (Py.getitem (JObj fields) "type") as [e0|ty]; [now intros [= ->]|].
  destruct (Py.eq_str ty "DIRECTORY").
  - destruct (p <- Py.getitem (JObj fields) "path";; Py.getitem p "toString")
      as [e0|ts]; [now intros [= ->] | discriminate].
  - destruct (Py.eq_str ty "FILE"); [|discriminate].
    destruct (Py.getitem (JObj fields) "name") as [e0|name];
      [now intros [= ->]|].
    destruct (Py.eq_str name "pom.xml"); [|discriminate].
    destruct (p <- Py.getitem (JObj fields) "path";; Py.getitem p "toString")
      as [e0|ts]; [now intros [= ->] | discriminate].
Qed.

(** X8: the loop over a page stops at the first entry that cannot be
    handled: a dict without a type, a DIRECTORY without a path to read, a
    FILE without a name, a FILE named pom.xml without a path to read.  It
    raises that entry's exception right after taking the entry, nothing is
    added to the list, and the entries after it are never taken, whatever
    they are. *)
Theorem malformed_entry_stops_the_page (search : string -> walk) (depth : nat)
    (pre post : list json) (e : json) (ex : exn) (w w1 : world) :
  entry_error e = Some ex ->
  for_entries search depth pre w = (Returned, w1) ->
  for_entries search depth (pre ++ e :: post) w
  = (Raised ex, record (Visit depth e) w1).
Proof.
  intros He Hpre.
  rewrite (for_entries_app repr base_url); unfold andThen at 1; rewrite Hpre.
  simpl; unfold andThen.
  now rewrite (visit_entry_error _ _ _ _ He).
Qed.

Lemma grows_then_stops (t : list event) (ex : exn) (w w1 w2 : world) :
  grows_by t w w1 -> stops_at ex w1 w2 -> stops_at ex w w2.
Proof.
  intros [T P] (t' & ev & T' & He & P'); exists (t ++ t'), ev.
  split; [|split].
  - now rewrite T', T, <- !List.app_assoc.
  - exact He.
  - now rewrite P', P, visited_app, flat_map_app, <- List.app_assoc.
Qed.

Lemma stops_here (ev : event) (ex : exn) (w : world) :
  event_error ev = Some ex -> stops_at ex w (record ev w).
Proof.
  intros He; exists [], ev; simpl; now rewrite app_nil_r.
Qed.

(** What a recursive search is known to do when it raises. *)
Lemma visit_entry_raised (search : string -> walk) (e : json) (ex : exn)
    (w w' : world) :
  (forall sub w1 w2, search sub w1 = (Raised ex, w2) -> stops_at ex w1 w2) ->
  visit_entry search e w = (Raised ex, w') ->
  w' = w /\ entry_error e = Some ex
  \/ stops_at ex w w' /\ discovered e = [].
Proof.
  intros Hsearch.
  destruct e as [| | | s | |fields]; try (simpl; discriminate).
  - simpl; destruct (PyStr.endswith s "pom.xml"); discriminate.
  - unfold entry_error, entry_path, visit_entry, lift.
    destruct (Py.getitem (JObj fields) "type") as [e0|ty] eqn:Ety;
      [intros [= <- <-]; now left|].
    destruct (Py.eq_str ty "DIRECTORY") eqn:D.
    + destruct (p <- Py.getitem (JObj fields) "path";;
                Py.getitem p "toString") as [e0|ts] eqn:Ep;
        [intros [= <- <-]; now left|].
      intros H; right; split; [exact (Hsearch _ _ _ H)|].
      apply (directory_not_discovered _ ts).
      unfold directory_path, entry_path.
      unfold Py.getitem in Ety.
      destruct (Py.lookup fields "type"); [|discriminate].
      injection Ety as ->; now rewrite D, Ep.
    + destruct (Py.eq_str ty "FILE"); [|discriminate].
      destruct (Py.getitem (JObj fields) "name") as [e0|name];
        [intros [= <- <-]; now left|].
      destruct (Py.eq_str name "pom.xml"); [|discriminate].
      destruct (p <- Py.getitem (JObj fields) "path";;
                Py.getitem p "toString") as [e0|ts];
        [intros [= <- <-]; now left | discriminate].
Qed.

Lemma for_entries_raised (search : string -> walk) (depth : nat)
    (entries : list json) (ex : exn) :
  search_spec (S depth) search ->
  (forall sub w1 w2, search sub w1 = (Raised ex, w2) -> stops_at ex w1 w2) ->
  forall w w',
    for_entries search depth entries w = (Raised ex, w') ->
    stops_at ex w w'.
Proof.
  intros Hret Hraise; induction entries as [|e entries IH]; intros w w';
    simpl; [discriminate|].
  unfold andThen.
  destruct (visit_entry search e (record (Visit depth e) w))
    as [[|e0|] w1] eqn:Ev; [| |discriminate].
  - intros Hrest; apply IH in Hrest.
    apply (visit_entry_returned repr base_url (S depth)) in Ev
      as (t1 & T1 & P1 & _); [|exact Hret].
    apply (grows_then_stops (Visit depth e :: t1) ex w w1 w'); [|exact Hrest].
    split; simpl in *; [now rewrite T1, <- List.app_assoc | exact P1].
  - intros [= -> ->].
    apply visit_entry_raised in Ev as [[-> He]|[Hst Hd]]; [| |exact Hraise].
    + now apply stops_here.
    + destruct Hst as (t & ev & T & He & P); exists (Visit depth e :: t), ev.
      simpl in *; rewrite Hd; split; [|split; [exact He | exact P]].
      now rewrite T, <- List.app_assoc.
Qed.

Lemma recursive_search_raised (fuel : nat) (ex : exn) :
  forall depth url w w',
    recursive_search fuel depth url w = (Raised ex, w') ->
    stops_at ex w w'.
Proof.
  induction fuel as [|fuel IH]; intros depth url w w';
    (destruct url as [[|c u]|]; try (simpl; discriminate)).
  rewrite recursive_search_page; cbv zeta.
  set (url := String c u).
  destruct (server (requests (trace w)) url) as [e|data] eqn:Es.
  - intros [= -> <-]; now apply stops_here.
  - unfold lift at 1.
    destruct (vs <- Py.get data "values" (JArr []);; Py.iter vs)
      as [e|entries] eqn:Ev.
    + intros [= -> <-]; apply stops_here; simpl.
      unfold page_entries; now rewrite Ev.
    + destruct (page_entries_dict data entries Ev) as (fields & ->).
      unfold andThen.
      destruct (for_entries _ depth entries _) as [[|e0|] w2] eqn:Ef;
        [| |discriminate].
      * apply for_entries_returned in Ef as (t1 & G1 & _).
        2:{ intros sub wa wb Hs.
            apply recursive_search_returned in Hs as (t & G & D & _); eauto. }
        unfold lift; cbn [Py.get ok].
        destruct (Py.truthy _).
        -- rewrite (proj1 (recursive_search_stop _ _ _ _ fuel depth w2)).
           discriminate.
        -- intros H; apply IH in H.
           apply (grows_then_stops (Request depth url (Body (JObj fields))
                                      :: t1) ex w w2 w'); [|exact H].
           now apply grows_after_request.
      * intros [= -> ->].
        apply for_entries_raised in Ef.
        -- exact (grows_then_stops _ ex w _ w'
                    (grows_request depth url (Body (JObj fields)) w) Ef).
        -- intros sub wa wb Hs.
           apply recursive_search_returned in Hs as (t & G & D & _); eauto.
        -- intros sub wa wb Hs; exact (IH _ _ _ _ Hs).
Qed.

(** X7: a walk that raises stops at the step that failed.  The last thing in
    its trace is either a request that got a failure or a body whose values
    cannot be listed, or the visit of an entry that cannot be handled, and
    the exception is that step's; nothing is requested or visited after it.
    The paths found before are in the list at that point, and are never
    returned. *)
Theorem raised_walk_stops_at_the_failing_step (fuel : nat) (t0 : list event)
    (ex : exn) (w : world) :
  find_pom_xml_in_repo fuel t0 = (Raised ex, w) ->
  exists t ev,
    trace w = t0 ++ t ++ [ev]
    /\ event_error ev = Some ex
    /\ pom_files w = flat_map discovered (visited t).
Proof.
  unfold find_pom_xml_in_repo; intros H.
  apply recursive_search_raised in H as (t & ev & T & He & P).
  exists t, ev; auto.
Qed.

(** An entry that is no directory and can be handled is handled without
    a request and without an exception. *)
Lemma visit_entry_leaf (search : string -> walk) (e : json) (w : world) :
  directory_path e = None -> entry_error e = None ->
  exists w', visit_entry search e w = (Returned, w') /\ trace w' = trace w.
Proof.
  destruct e as [| | | s | |fields]; simpl; try (intros _ _; now eauto).
  - intros _ _; destruct (PyStr.endswith s "pom.xml"); eauto.
  - unfold entry_path, lift; simpl.
    destruct (Py.lookup fields "type") as [ty|]; [|discriminate].
    unfold ok; cbn beta iota.
    destruct (Py.eq_str ty "DIRECTORY").
    + destruct (p <- match Py.lookup fields "path" with
                     | Some x => inr x
                     | None => raise (KeyError "path")
                     end;; Py.getitem p "toString"); discriminate.
    + destruct (Py.eq_str ty "FILE"); [|now eauto].
      destruct (Py.lookup fields "name") as [name|]; [|discriminate].
      cbn beta iota.
      destruct (Py.eq_str name "pom.xml"); [|now eauto].
      destruct (p <- match Py.lookup fields "path" with
                     | Some x => inr x
                     | None => raise (KeyError "path")
                     end;; Py.getitem p "toString");
        [discriminate | now eauto].
Qed.

Lemma served_children (e : json) (children : list item) :
  served repr server base_url (Subdir e children) ->
  exists p data,
    directory_path e = Some p
    /\ (forall sent,
          server sent (base_url ++ "/" ++ py_str repr p)%string = Body data)
    /\ page_entries data = inr (map entry_of children)
    /\ is_last_page (Body data) = true
    /\ Forall (served repr server base_url) children.
Proof.
  intros (p & data & Hd & Hs & Hv & Hl & Hall).
  exists p, data.
  split; [exact Hd|]; split; [exact Hs|]; split; [exact Hv|].
  split; [exact Hl|].
  clear Hv; induction children as [|c cs IH]; [constructor|].
  destruct Hall as [Hc Hcs]; constructor; auto.
Qed.

(** The loop over the entries of served items, with enough fuel for the
    directories below them. *)
(** A page that is the last one ends the call once its entries are done. *)
Lemma recursive_search_last_page (fuel depth : nat) (url : string)
    (w w2 : world) (data : json) (entries : list json) :
  url <> EmptyString ->
  server (requests (trace w)) url = Body data ->
  page_entries data = inr entries ->
  for_entries (fun sub => recursive_search fuel (S depth) (Some sub)) depth
    entries (record (Request depth url (Body data)) w) = (Returned, w2) ->
  is_last_page (Body data) = true ->
  recursive_search (S fuel) depth (Some url) w = (Returned, w2).
Proof.
  intros Hne Hs Hv Hfor Hl; destruct url as [|c u]; [congruence|].
  destruct (page_entries_dict _ _ Hv) as (fields & ->).
  destruct (is_last_page_get fields) as (lastv & Hg & Ht).
  rewrite recursive_search_page; cbv zeta; rewrite Hs.
  unfold lift at 1; unfold page_entries in Hv; rewrite Hv.
  unfold andThen; rewrite Hfor.
  unfold lift; rewrite Hg, <- Ht, Hl.
  apply recursive_search_stop.
Qed.

Lemma for_entries_served_leaf (search : string -> walk) (depth : nat)
    (e : json) (items : list item) (w : world) :
  served repr server base_url (Leaf e) ->
  (forall w1, exists w',
      for_entries search depth (map entry_of items) w1 = (Returned, w')
      /\ visited (trace w')
         = visited (trace w1) ++ flat_map entries_in_order items) ->
  exists w',
    for_entries search depth (map entry_of (Leaf e :: items)) w
    = (Returned, w')
    /\ visited (trace w')
       = visited (trace w) ++ flat_map entries_in_order (Leaf e :: items).
Proof.
  intros [Hnd Hne] Hrest.
  destruct (visit_entry_leaf search e (record (Visit depth e) w) Hnd Hne)
    as (w1 & Hv & Ht).
  destruct (Hrest w1) as (w' & Hw & Hvis).
  exists w'; cbn [map entry_of]; rewrite for_entries_cons, Hv.
  split; [exact Hw|].
  rewrite Hvis, Ht; unfold record; cbn [trace flat_map entries_in_order].
  rewrite visited_app; simpl; now rewrite <- List.app_assoc.
Qed.

Lemma levels_cons (i : item) (items : list item) :
  levels (i :: items) = Nat.max (height i) (levels items).
Proof. reflexivity. Qed.

Lemma height_subdir (e : json) (children : list item) :
  height (Subdir e children) = S (levels children).
Proof. reflexivity. Qed.

Lemma for_entries_served (fuel : nat) :
  forall items depth w,
    Forall (served repr server base_url) items ->
    levels items <= fuel ->
    exists w',
      for_entries (fun sub => recursive_search fuel (S depth) (Some sub))
        depth (map entry_of items) w = (Returned, w')
      /\ visited (trace w')
         = visited (trace w) ++ flat_map entries_in_order items.
Proof.
  induction fuel as [|fuel IHfuel]; intros items;
    induction items as [|i items IH]; intros depth w Hall Hlev;
    try (exists w; simpl; now rewrite app_nil_r);
    inversion Hall as [|? ? Hi Hrest]; subst;
    rewrite levels_cons in Hlev; destruct i as [e|e children];
    try (apply for_entries_served_leaf; [exact Hi|];
         intros w1; apply IH; [exact Hrest | lia]);
    rewrite height_subdir in Hlev; [lia|].
  apply served_children in Hi as (p & data & Hd & Hs & Hv & Hl & Hch).
  destruct (IHfuel children (S depth)
              (record (Request (S depth)
                         (base_url ++ "/" ++ py_str repr p)%string
                         (Body data))
                 (record (Visit depth e) w)) Hch ltac:(lia))
    as (w1 & Hw1 & Hvis1).
  destruct (IH depth w1 Hrest ltac:(lia)) as (w' & Hw & Hvis).
  exists w'; cbn [map entry_of]; rewrite for_entries_cons.
  rewrite (visit_entry_directory repr base_url _ _ _ _ Hd).
  assert (Hsub : recursive_search (S fuel) (S depth)
                   (Some (base_url ++ "/" ++ py_str repr p)%string)
                   (record (Visit depth e) w) = (Returned, w1)).
  { apply (recursive_search_last_page _ _ _ _ _ data (map entry_of children));
      auto.
    destruct base_url; discriminate. }
  rewrite Hsub; split; [exact Hw|].
  rewrite Hvis, Hvis1; unfold record; cbn [trace flat_map entries_in_order].
  rewrite !visited_app; simpl; now rewrite <- !List.app_assoc.
Qed.

(** X13: a tree whose directories each fit in one page is walked depth
    first.  When the walk of such a tree returns, it has visited the entries
    of the tree in depth-first order, a directory before what it holds, and
    the list it returns holds the paths of the pom entries in that order.
    (A tree nested deeper than the interpreter lets calls nest makes the
    walk raise instead; the statement is about a walk that returned.) *)
Theorem single_page_tree_walked_depth_first (fuel : nat) (t0 : list event)
    (items : list item) (w : world) :
  api_url <> EmptyString ->
  root_served repr server api_url base_url items ->
  find_pom_xml_in_repo fuel t0 = (Returned, w) ->
  exists t,
    trace w = t0 ++ t
    /\ visited t = flat_map entries_in_order items
    /\ pom_files w
       = flat_map discovered (flat_map entries_in_order items).
Proof.
  intros Hne (data & Hs & Hv & Hl & Hall) Hret.
  set (big := Nat.max fuel (levels items)).
  destruct (for_entries_served big items 0
              (record (Request 0 api_url (Body data)) (mkWorld t0 []))
              Hall ltac:(unfold big; lia)) as (w' & Hw & Hvis).
  assert (Hfind : find_pom_xml_in_repo (S big) t0 = (Returned, w')).
  { unfold find_pom_xml_in_repo.
    apply (recursive_search_last_page _ _ _ _ _ data (map entry_of items));
      auto. }
  assert (Hsame : find_pom_xml_in_repo (S big) t0 = (Returned, w)).
  { unfold find_pom_xml_in_repo in *.
    apply (recursive_search_more _ _ _ _ fuel (S big) _ _ _ _ _
             ltac:(unfold big; lia) Hret); discriminate. }
  rewrite Hsame in Hfind; injection Hfind as <-.
  unfold find_pom_xml_in_repo in Hret.
  apply recursive_search_returned in Hret as (t & [T P] & _).
  simpl in T, P; exists t; split; [exact T|].
  assert (Hvt : visited t = flat_map entries_in_order items).
  { rewrite T in Hvis; unfold record in Hvis; cbn [trace] in Hvis.
    rewrite !visited_app in Hvis; simpl in Hvis.
    rewrite app_nil_r in Hvis; now apply app_inv_head in Hvis. }
  split; [exact Hvt | now rewrite P, Hvt].
Qed.

End WalkerMore.

(* ================================================================== *)
(** ** More on the loop over the repositories *)
(* ================================================================== *)

Section OrchestratorMore.

Variable repr : json -> string.
Variable server : list string -> string -> response.
Variable raw_server : string -> raw_response.

Local Abbreviation process_repository := (process_repository repr server).
Local Abbreviation fetch_and_parse_pom := (fetch_and_parse_pom repr raw_server).
Local Abbreviation scan_repository := (scan_repository repr server raw_server).
Local Abbreviation scan_all := (scan_all repr server raw_server).
Local Abbreviation task_rows := (task_rows repr raw_server).

Local Open Scope list_scope.

(** The rows of one task, by what its fetch got. *)
Lemma task_result_rows (pk slug : string) (f : json) (base : string)
    (tags : list string) :
  write_result pk slug (fst (fetch_and_parse_pom pk slug f base tags))
  = match raw_server (file_url repr pk slug f base) with
    | RawText content => content_rows pk slug f tags content
    | RawFails _ => []
    end.
Proof.
  unfold fetch_and_parse_pom, fetch_file_content, content_rows.
  destruct (raw_server (file_url repr pk slug f base)) as [e|content];
    [reflexivity|]; simpl.
  rewrite (find_version_tags_from_pom_stored content tags).
  destruct (stored_tags content tags) as [|k ks]; [reflexivity|].
  simpl; now rewrite map_map.
Qed.

(** X10: the rows a repository adds to the report, in full.  When its walk
    returns, the rows are, file after file in the order of discovery (a path
    found twice counted twice), the rows of each file whose content was
    fetched: one per requested tag with both markers in that content, in the
    order of the request, with the extracted value.  A file whose fetch
    failed adds none. *)
Theorem repository_rows_in_full (fuel : nat) (base : string)
    (tags : list string) (r : report) (pk slug : string) (w : world) :
  process_repository fuel slug pk base (listing r) = (Returned, w) ->
  exists r',
    scan_repository fuel base tags r (pk, slug) = Some r'
    /\ rows r'
       = rows r
         ++ flat_map
              (fun f =>
                 match raw_server (file_url repr pk slug f base) with
                 | RawText content => content_rows pk slug f tags content
                 | RawFails _ => []
                 end)
              (pom_files w).
Proof.
  intros H.
  destruct (scan_repository_returned repr server raw_server fuel base tags r
              pk slug w H) as (r' & Hs & _ & Hr).
  exists r'; split; [exact Hs|]; rewrite Hr; f_equal.
  unfold task_rows; apply flat_map_ext; intros f.
  apply task_result_rows.
Qed.

Lemma first_occurrences_length (l seen : list string) :
  length (first_occurrences seen l) <= length l.
Proof.
  revert seen; induction l as [|t l IH]; intros seen; simpl; [lia|].
  destruct (existsb (String.eqb t) seen); simpl.
  - specialize (IH seen); lia.
  - specialize (IH (seen ++ [t])); lia.
Qed.

(** X12: the rows one file brings to the report: at most one per requested
    tag and no two with the same tag; each carries the repository's key and
    slug, the file's path and one of the requested tags. *)
Theorem file_rows_have_distinct_tags (pk slug : string) (f : json)
    (base : string) (tags : list string) :
  let file_rows :=
    write_result pk slug (fst (fetch_and_parse_pom pk slug f base tags)) in
  NoDup (map row_tag file_rows)
  /\ length file_rows <= length tags
  /\ Forall (fun x => row_project_key x = pk /\ row_repo_slug x = slug
                      /\ row_file_path x = f /\ In (row_tag x) tags)
       file_rows.
Proof.
  cbv zeta; rewrite task_result_rows.
  destruct (raw_server (file_url repr pk slug f base)) as [e|content].
  - simpl; repeat split; [constructor | lia | constructor].
  - unfold content_rows.
    destruct (stored_tags_spec content tags) as (Hnd & Hin).
    split; [|split].
    + rewrite map_map; simpl; now rewrite map_id.
    + rewrite length_map; unfold stored_tags.
      etransitivity; [apply first_occurrences_length | apply filter_length_le].
    + apply Forall_forall; intros x Hx.
      apply in_map_iff in Hx as (t & <- & Ht); simpl.
      repeat split; now apply Hin.
Qed.

(** X14: the walk of a repository never asks anything outside that
    repository's files endpoint: however the walk ends, every URL it
    requests is the files URL of the repository followed by something. *)
Theorem repository_walk_stays_under_files_url (fuel : nat)
    (slug pk base : string) (t0 : list event) :
  let files_url :=
    (base ++ "/projects/" ++ pk ++ "/repos/" ++ slug ++ "/files")%string in
  exists t,
    trace (snd (process_repository fuel slug pk base t0)) = t0 ++ t
    /\ Forall (under files_url) (requests t).
Proof.
  intros files_url; unfold process_repository, find_pom_xml_in_repo.
  fold files_url.
  destruct (recursive_search_asks_under repr server files_url files_url fuel
              0 files_url (mkWorld t0 []))
    as (t & T & F).
  - left; exists EmptyString.
    clear; induction files_url; simpl; [reflexivity | now f_equal].
  - exists t; split; [exact T|].
    eapply Forall_impl; [|exact F]; intros u [H|H]; exact H.
Qed.

Lemma task_lines_are_file_lines (pk slug : string) (f : json)
    (base : string) (tags : list string) :
  filter is_repo_line (snd (fetch_and_parse_pom pk slug f base tags)) = [].
Proof.
  unfold fetch_and_parse_pom.
  destruct (fetch_file_content repr raw_server pk slug f base) as [e|content];
    [reflexivity|].
  destruct (find_version_tags_from_pom content tags) as [[|kv d]|];
    reflexivity.
Qed.

Lemma scan_repository_one_line (fuel : nat) (base : string)
    (tags : list string) (r r' : report) (repo : string * string) :
  scan_repository fuel base tags r repo = Some r' ->
  exists lines,
    stdout r' = stdout r ++ lines
    /\ length (filter is_repo_line lines) = 1.
Proof.
  destruct repo as [pk slug]; unfold scan_repository.
  destruct (process_repository fuel slug pk base (listing r)) as [[|e|] w];
    [| |discriminate]; intros [= <-]; simpl; eexists; split;
    try reflexivity.
  rewrite filter_app; simpl; rewrite length_app; simpl.
  induction (pom_files w) as [|f fs IH]; simpl; [reflexivity|].
  rewrite filter_app, task_lines_are_file_lines; exact IH.
Qed.

(** X15: a run that ends has printed, besides the lines of the tasks,
    exactly one line per configured repository: a blank line or the error
    line of its walk. *)
Theorem one_closing_line_per_repository (fuel : nat) (base : string)
    (tags : list string) (repos : list (string * string)) :
  forall r r',
    scan_all fuel base tags repos r = Some r' ->
    exists lines,
      stdout r' = stdout r ++ lines
      /\ length (filter is_repo_line lines) = length repos.
Proof.
  induction repos as [|repo repos IH]; intros r r'.
  - intros [= <-]; exists []; simpl; now rewrite app_nil_r.
  - rewrite (scan_all_cons repr server raw_server).
    destruct (scan_repository fuel base tags r repo) as [r1|] eqn:E;
      [|discriminate].
    intros H; apply IH in H as (l2 & S2 & L2).
    apply scan_repository_one_line in E as (l1 & S1 & L1).
    exists (l1 ++ l2); split.
    + now rewrite S2, S1, List.app_assoc.
    + rewrite filter_app, length_app, L1, L2; reflexivity.
Qed.

Lemma stash_url_nonempty (base pk slug : string) :
  exists c u,
    (base ++ "/projects/" ++ pk ++ "/repos/" ++ slug ++ "/files")%string
    = String c u.
Proof. destruct base; simpl; eauto. Qed.

(** X9: when every listing request fails, the run still goes through all
    the repositories: it ends with no row added, one error line per
    repository in the order of the configuration, and one request sent per
    repository. *)
Theorem outage_gives_one_line_per_repository (e : exn) (fuel : nat)
    (base : string) (tags : list string) (repos : list (string * string)) :
  (forall sent url, server sent url = Fails e) ->
  0 < fuel ->
  forall r,
    exists r',
      scan_all fuel base tags repos r = Some r'
      /\ rows r' = rows r
      /\ stdout r' = stdout r ++ map (repo_error_line e) repos
      /\ length (requests (listing r'))
         = length (requests (listing r)) + length repos.
Proof.
  intros Hs Hf; destruct fuel as [|fuel]; [lia|].
  induction repos as [|[pk slug] repos IH]; intros r.
  - exists r; simpl; rewrite app_nil_r, Nat.add_0_r; auto.
  - rewrite (scan_all_cons repr server raw_server).
    unfold scan_repository, process_repository, find_pom_xml_in_repo.
    destruct (stash_url_nonempty base pk slug) as (c & u & ->).
    rewrite recursive_search_page; cbv zeta; rewrite Hs.
    destruct (IH (mkReport
                    (trace (record (Request 0 (String c u) (Fails e))
                              (mkWorld (listing r) [])))
                    (rows r)
                    (stdout r ++ [ErrorProcessingRepo pk slug e])))
      as (r' & Hr' & Hrows & Hout & Hreq).
    exists r'; split; [exact Hr'|]; cbn [rows stdout listing] in *.
    split; [exact Hrows|]; split.
    + rewrite Hout, <- List.app_assoc; reflexivity.
    + rewrite Hreq; unfold record; cbn [trace].
      rewrite requests_app, length_app; simpl; lia.
Qed.

Lemma andThen_agree (m k : walk) (w1 w2 : world) :
  agree (m w1) (m w2) ->
  (forall wa wb, pom_files wa = pom_files wb -> agree (k wa) (k wb)) ->
  agree (andThen m k w1) (andThen m k w2).
Proof.
  unfold andThen, agree.
  destruct (m w1) as [st1 wa], (m w2) as [st2 wb]; simpl.
  intros [<- Hp] Hk; destruct st1; auto.
Qed.

Lemma lift_agree {A} (m : result A) (k : A -> walk) (w1 w2 : world) :
  pom_files w1 = pom_files w2 ->
  (forall a, agree (k a w1) (k a w2)) ->
  agree (lift m k w1) (lift m k w2).
Proof. unfold lift; destruct m; [now split | auto]. Qed.

Lemma visit_entry_agree (base_url : string) (search : string -> walk)
    (e : json) (w1 w2 : world) :
  (forall sub wa wb, pom_files wa = pom_files wb ->
                     agree (search sub wa) (search sub wb)) ->
  pom_files w1 = pom_files w2 ->
  agree (visit_entry repr base_url search e w1)
        (visit_entry repr base_url search e w2).
Proof.
  intros Hs Hp.
  assert (Hsame : agree (Returned, w1) (Returned, w2)) by now split.
  assert (Happ : forall v, agree (Returned, append_pom v w1)
                                 (Returned, append_pom v w2))
    by (intros v; split; simpl; [reflexivity | now rewrite Hp]).
  destruct e as [| | | s | |fields]; simpl; auto.
  - destruct (PyStr.endswith s "pom.xml"); auto.
  - apply lift_agree; [exact Hp|]; intros ty.
    destruct (Py.eq_str ty "DIRECTORY").
    + apply lift_agree; auto.
    + destruct (Py.eq_str ty "FILE"); auto.
      apply lift_agree; [exact Hp|]; intros name.
      destruct (Py.eq_str name "pom.xml"); auto.
      apply lift_agree; auto.
Qed.

Lemma for_entries_agree (base_url : string) (search : string -> walk)
    (depth : nat) (entries : list json) :
  (forall sub wa wb, pom_files wa = pom_files wb ->
                     agree (search sub wa) (search sub wb)) ->
  forall w1 w2,
    pom_files w1 = pom_files w2 ->
    agree (for_entries repr base_url search depth entries w1)
          (for_entries repr base_url search depth entries w2).
Proof.
  intros Hs; induction entries as [|e entries IH]; intros w1 w2 Hp; simpl.
  - now split.
  - apply andThen_agree; [|exact IH].
    apply visit_entry_agree; [exact Hs | exact Hp].
Qed.

(** With an endpoint that answers by URL alone, a search does not depend on
    what was requested before it. *)
Lemma recursive_search_agree (api_url base_url : string) :
  answers_by_url server ->
  forall fuel depth url w1 w2,
    pom_files w1 = pom_files w2 ->
    agree (recursive_search repr server api_url base_url fuel depth url w1)
          (recursive_search repr server api_url base_url fuel depth url w2).
Proof.
  intros Hurl; induction fuel as [|fuel IH]; intros depth url w1 w2 Hp;
    (destruct url as [[|c u]|]; try (simpl; now split)).
  rewrite !recursive_search_page; cbv zeta.
  rewrite (Hurl (requests (trace w1)) (requests (trace w2))).
  destruct (server (requests (trace w2)) (String c u)) as [e|data];
    [now split|].
  apply lift_agree; [exact Hp|]; intros entries.
  apply andThen_agree.
  - apply for_entries_agree; [|exact Hp].
    intros sub wa wb Hab; now apply IH.
  - intros wa wb Hab; apply lift_agree; [exact Hab|]; intros last.
    destruct (Py.truthy last); [now apply IH|].
    apply lift_agree; [exact Hab|]; intros next; now apply IH.
Qed.

(** X11: with an endpoint that answers by URL alone, the report is put
    together repository by repository: the rows of a run are the rows that
    were there, followed by the rows each repository gives when scanned
    alone, in the order of the configuration. *)
Theorem report_is_concatenation_of_repositories (fuel : nat) (base : string)
    (tags : list string) (repos : list (string * string)) :
  answers_by_url server ->
  forall r r',
    scan_all fuel base tags repos r = Some r' ->
    rows r'
    = rows r
      ++ flat_map (repo_rows_alone repr server raw_server fuel base tags)
           repos.
Proof.
  intros Hurl; induction repos as [|[pk slug] repos IH]; intros r r'.
  - intros [= <-]; simpl; now rewrite app_nil_r.
  - rewrite (scan_all_cons repr server raw_server).
    destruct (scan_repository fuel base tags r (pk, slug)) as [r1|] eqn:E;
      [|discriminate].
    intros H; rewrite (IH _ _ H); simpl; rewrite List.app_assoc; f_equal.
    unfold repo_rows_alone, scan_repository in *.
    unfold process_repository, find_pom_xml_in_repo in *.
    cbn [listing] in *.
    set (url := (base ++ "/projects/" ++ pk ++ "/repos/" ++ slug
                   ++ "/files")%string) in *.
    destruct (recursive_search_agree url url Hurl fuel 0 (Some url)
                (mkWorld (listing r) []) (mkWorld [] []) eq_refl)
      as [Hst Hpf].
    destruct (recursive_search repr server url url fuel 0 (Some url)
                (mkWorld (listing r) [])) as [st1 wa];
      destruct (recursive_search repr server url url fuel 0 (Some url)
                  (mkWorld [] [])) as [st2 wb].
    simpl in Hst, Hpf; subst st2.
    destruct st1; [| |discriminate]; injection E as <-; simpl.
    + now rewrite Hpf.
    + now rewrite app_nil_r.
Qed.

End OrchestratorMore.

(** ** A run after a repository that failed *)

Section RunFacts.

Variable repr : json -> string.
Variable server : list string -> string -> response.
Variable raw_server : string -> raw_response.

Local Abbreviation process_repository := (process_repository repr server).
Local Abbreviation scan_repository := (scan_repository repr server raw_server).
Local Abbreviation scan_all := (scan_all repr server raw_server).
Local Abbreviation walks := (walks repr server).
Local Abbreviation repo_rows := (repo_rows repr raw_server).
Local Abbreviation repo_lines := (repo_lines repr raw_server).

Local Open Scope list_scope.

(** A walk that ended sent the request for the listing URL of its
    repository first. *)
Lemma walk_sends_listing_request (fuel : nat) (slug pk base : string)
    (t : list event) :
  ended (fst (process_repository fuel slug pk base t)) ->
  exists answer t',
    trace (snd (process_repository fuel slug pk base t))
    = t ++ Request 0 (stash_files_url base (pk, slug)) answer :: t'.
Proof.
  unfold process_repository, find_pom_xml_in_repo, stash_files_url.
  cbn [fst snd].
  destruct (stash_url_nonempty base pk slug) as (c & u & ->).
  destruct fuel as [|fuel]; [intros H; now elim H|]; intros _.
  apply (recursive_search_first_request repr server (String c u) (String c u)
           fuel 0 c u (mkWorld t [])).
Qed.

(** What one repository whose walk ended adds to the report. *)
Lemma scan_repository_ended (fuel : nat) (base : string)
    (tags : list string) (r : report) (pk slug : string) :
  let outcome := process_repository fuel slug pk base (listing r) in
  ended (fst outcome) ->
  exists r1,
    scan_repository fuel base tags r (pk, slug) = Some r1
    /\ listing r1 = trace (snd outcome)
    /\ rows r1 = rows r ++ repo_rows base tags ((pk, slug), outcome)
    /\ stdout r1 = stdout r ++ repo_lines base tags ((pk, slug), outcome)
    /\ length (filter is_repo_line (repo_lines base tags ((pk, slug), outcome)))
       = 1.
Proof.
  cbv zeta; unfold scan_repository.
  destruct (process_repository fuel slug pk base (listing r)) as [[|e|] w];
    cbn [fst snd]; intros Hend; [| |now elim Hend].
  - eexists; split; [reflexivity|]; cbn [listing rows stdout].
    split; [reflexivity|]; unfold repo_rows, repo_lines, task_rows.
    rewrite !flat_map_map; repeat split.
    rewrite filter_app, length_app; simpl.
    induction (pom_files w) as [|f fs IH]; simpl; [reflexivity|].
    rewrite filter_app, task_lines_are_file_lines; exact IH.
  - eexists; split; [reflexivity|]; cbn [listing rows stdout].
    split; [reflexivity|]; unfold repo_rows, repo_lines.
    now rewrite app_nil_r.
Qed.

(** A run over repositories whose walks all end: it ends, and the report is
    what was there followed by what each repository adds, in turn. *)
Lemma scan_all_ended (fuel : nat) (base : string) (tags : list string)
    (repos : list (string * string)) :
  forall r,
    Forall (fun outcome => ended (fst outcome))
      (walks fuel base repos (listing r)) ->
    let scanned := combine repos (walks fuel base repos (listing r)) in
    exists r',
      scan_all fuel base tags repos r = Some r'
      /\ rows r' = rows r ++ flat_map (repo_rows base tags) scanned
      /\ stdout r' = stdout r ++ flat_map (repo_lines base tags) scanned
      /\ length (filter is_repo_line (flat_map (repo_lines base tags) scanned))
         = length repos
      /\ exists t,
           listing r' = listing r ++ t
           /\ Forall (fun repo => In (stash_files_url base repo) (requests t))
                repos.
Proof.
  induction repos as [|[pk slug] repos IH]; intros r Hend; cbv zeta.
  - exists r; simpl; rewrite !app_nil_r; repeat split.
    exists []; now rewrite app_nil_r.
  - change (walks fuel base ((pk, slug) :: repos) (listing r))
      with (process_repository fuel slug pk base (listing r)
            :: walks fuel base repos
                 (trace (snd (process_repository fuel slug pk base
                                (listing r)))))
      in *.
    apply Forall_cons_iff in Hend as [Ho Hrest].
    destruct (scan_repository_ended fuel base tags r pk slug Ho)
      as (r1 & Hs & L1 & R1 & S1 & N1).
    destruct (walk_sends_listing_request fuel slug pk base (listing r) Ho)
      as (answer & t1 & T1).
    rewrite <- L1 in Hrest |- *.
    destruct (IH r1 Hrest) as (r' & Hr' & R2 & S2 & N2 & t2 & T2 & F2).
    exists r'; rewrite (scan_all_cons repr server raw_server), Hs.
    split; [exact Hr'|]; cbn [combine flat_map].
    split; [now rewrite R2, R1, List.app_assoc|].
    split; [now rewrite S2, S1, List.app_assoc|].
    split; [rewrite filter_app, length_app, N1, N2; reflexivity|].
    exists ((Request 0 (stash_files_url base (pk, slug)) answer :: t1) ++ t2).
    split.
    + rewrite T2, L1, T1, <- List.app_assoc; reflexivity.
    + constructor; [simpl; now left|].
      eapply Forall_impl; [|exact F2]; intros repo Hin.
      rewrite requests_app; apply in_or_app; now right.
Qed.

(** C8: when the walk of a repository raises, the loop catches the
    exception, prints one line for it, writes no row for that repository and
    goes on with the repositories that follow from that report; what they
    add comes after the rows and lines already there.  When the walk of each
    repository that follows ends, returning or raising, the run ends too,
    and every one of them has been scanned and reported: the listing URL of
    each was requested after the failure; the rows of the report are the
    rows that were there followed, repository by repository in the order of
    the configuration, by the rows of the tasks of the files its walk
    found; the lines printed are the lines that were there, the error line
    of the failed repository and then, repository by repository, the lines
    of its tasks and a blank line, or its own error line when its walk
    raised too: one closing line for each. *)
Theorem C8_failed_repository_does_not_stop_the_run (fuel : nat)
    (base : string) (tags : list string) (pk slug : string)
    (rest : list (string * string)) (r : report) (e : exn) (w : world) :
  process_repository fuel slug pk base (listing r) = (Raised e, w) ->
  let r1 :=
    mkReport (trace w) (rows r)
      (stdout r ++ [ErrorProcessingRepo pk slug e]) in
  scan_repository fuel base tags r (pk, slug) = Some r1
  /\ scan_all fuel base tags ((pk, slug) :: rest) r =
     scan_all fuel base tags rest r1
  /\ (forall r', scan_all fuel base tags rest r1 = Some r' ->
        exists more lines,
          rows r' = rows r ++ more
          /\ stdout r' = stdout r ++ ErrorProcessingRepo pk slug e :: lines)
  /\ (Forall (fun outcome => ended (fst outcome))
        (walks fuel base rest (trace w)) ->
      let scanned := combine rest (walks fuel base rest (trace w)) in
      exists r',
        scan_all fuel base tags ((pk, slug) :: rest) r = Some r'
        /\ rows r' = rows r ++ flat_map (repo_rows base tags) scanned
        /\ stdout r'
           = stdout r
               ++ ErrorProcessingRepo pk slug e
                    :: flat_map (repo_lines base tags) scanned
        /\ length
             (filter is_repo_line (flat_map (repo_lines base tags) scanned))
           = length rest
        /\ exists t,
             listing r' = trace w ++ t
             /\ Forall
                  (fun repo => In (stash_files_url base repo) (requests t))
                  rest).
Proof.
  intros Hwalk r1.
  pose proof (scan_repository_raised repr server raw_server fuel base tags r
                pk slug e w Hwalk) as Hs.
  assert (Hcons : scan_all fuel base tags ((pk, slug) :: rest) r =
                  scan_all fuel base tags rest r1)
    by now rewrite (scan_all_cons repr server raw_server), Hs.
  split; [exact Hs|]; split; [exact Hcons|]; split.
  - intros r' Hrest.
    apply (scan_all_appends repr server raw_server) in Hrest
      as (more & lines & R & S).
    exists more, lines; split; [exact R|].
    rewrite S; simpl; now rewrite <- List.app_assoc.
  - intros Hend scanned.
    destruct (scan_all_ended fuel base tags rest r1 Hend)
      as (r' & Hr' & R & S & N & t & T & F).
    exists r'; rewrite Hcons; split; [exact Hr'|].
    split; [exact R|]; split; [|split; [exact N | now exists t]].
    rewrite S; simpl; now rewrite <- List.app_assoc.
Qed.

End RunFacts.

(* ================================================================== *)
(** ** More runs on the mock endpoints *)
(* ================================================================== *)

Module MoreRuns.
Import Mock MoreMock.

Local Open Scope list_scope.

Lemma table_by_url (pages : list (string * json)) :
  answers_by_url (table pages).
Proof.
  intros s1 s2 url; induction pages as [|[u data] pages IH]; simpl;
    [reflexivity | now rewrite IH].
Qed.

(** The stored tags of a content for the configured tags, which are
    distinct. *)
Lemma extractor_result_witness :
  stored_tags "<maven-parent>7</maven-parent><mssql.version>9"%string
    version_tags
  = filter
      (both_found "<maven-parent>7</maven-parent><mssql.version>9"%string)
      version_tags.
Proof.
  apply (proj2 (proj2 (proj2
           (extractor_result_in_request_order
              "<maven-parent>7</maven-parent><mssql.version>9"%string
              version_tags)))).
  repeat constructor; simpl; intuition discriminate.
Defined.

Lemma extracted_values_witness :
  not_space (first_char "1.0") /\ not_space (last_char "1.0").
Proof.
  apply (extracted_values_are_trimmed "<v> 1.0 </v>" ["v"%string]
           [("v"%string, "1.0"%string)] "v" "1.0").
  - reflexivity.
  - simpl; auto.
Defined.

Lemma extracted_value_marker_witness : ~ occurs "1" (end_tag "v").
Proof.
  apply (extracted_value_has_no_closing_marker "<v>1</v>2</v>" ["v"%string]
           [("v"%string, "1"%string)] "v" "1").
  - reflexivity.
  - simpl; auto.
Defined.

Lemma flat_listing_witness :
  exists w,
    find_pom_xml_in_repo no_repr flat_pages "R" "R" 2 [] = (Returned, w)
    /\ pom_files w = [JStr "pom.xml"; JStr "a/pom.xml"]
    /\ requests (trace w) = ["R"%string; "R?start=2"%string].
Proof.
  apply (flat_listing_walked_in_full no_repr flat_pages "R" "R" 2 []
           [(["pom.xml"%string; "README.md"%string], JInt 2)]
           ["a/pom.xml"%string; "a/pom.xml.bak"%string]).
  - discriminate.
  - eexists; split; [reflexivity|]; split; [reflexivity|].
    split; [reflexivity|]; split; [reflexivity|].
    eexists; split; [reflexivity|]; split; reflexivity.
  - simpl; lia.
Defined.

Lemma page_without_fields_witness :
  recursive_search no_repr endless "R" "R" 1 0 (Some "R"%string)
    (mkWorld [] [])
  = recursive_search no_repr endless "R" "R" 0 0 (Some "R?start=None"%string)
      (after_names 0 ["pom.xml"%string]
         (record (Request 0 "R" (Body bare_page)) (mkWorld [] []))).
Proof.
  apply (page_without_pagination_fields no_repr endless "R" "R" 0 0
           "R"%char EmptyString (mkWorld [] [])
           (after_names 0 ["pom.xml"%string]
              (record (Request 0 "R" (Body bare_page)) (mkWorld [] [])))
           [("values"%string, JArr [JStr "pom.xml"])] [JStr "pom.xml"]);
    reflexivity.
Defined.

Lemma endless_pages_witness :
  exists w',
    recursive_search no_repr endless "R" "R" 3 0 (Some "R"%string)
      (mkWorld [] []) = (OutOfFuel, w')
    /\ length (requests (trace w')) = 0 + 3
    /\ pom_files w' = [] ++ [JStr "pom.xml"; JStr "pom.xml"; JStr "pom.xml"].
Proof.
  apply (endless_pages_never_return no_repr endless "R" "R" bare_page
           ["pom.xml"%string] (fun _ _ => eq_refl) eq_refl eq_refl 3 0
           "R"%string (mkWorld [] [])).
  discriminate.
Defined.

Lemma raised_walk_witness :
  exists t ev,
    trace (snd (find_pom_xml_in_repo no_repr broken_subdir "R" "R" 3 []))
    = [] ++ t ++ [ev]
    /\ event_error ev = Some (TransportError "404")
    /\ [JStr "pom.xml"] = flat_map discovered (visited t).
Proof.
  apply (raised_walk_stops_at_the_failing_step no_repr broken_subdir "R" "R"
           3 [] (TransportError "404")
           (snd (find_pom_xml_in_repo no_repr broken_subdir "R" "R" 3 []))).
  reflexivity.
Defined.

Lemma malformed_entry_witness :
  for_entries no_repr "R" nested_search 0
    ([JStr "pom.xml"] ++ untyped_entry :: [JStr "z/pom.xml"]) (mkWorld [] [])
  = (Raised (KeyError "type"),
     record (Visit 0 untyped_entry)
       (after_names 0 ["pom.xml"%string] (mkWorld [] []))).
Proof.
  apply (malformed_entry_stops_the_page no_repr "R" nested_search 0
           [JStr "pom.xml"] [JStr "z/pom.xml"] untyped_entry
           (KeyError "type") (mkWorld [] [])
           (after_names 0 ["pom.xml"%string] (mkWorld [] [])));
    reflexivity.
Defined.

Lemma outage_witness :
  exists r',
    scan_all no_repr down two_repos_raw 1 base_api_url version_tags
      project_keys_and_slugs (mkReport [] [] []) = Some r'
    /\ rows r' = []
    /\ stdout r'
       = [] ++ map (repo_error_line (TransportError "503"))
                 project_keys_and_slugs
    /\ length (requests (listing r')) = 0 + 14.
Proof.
  apply (outage_gives_one_line_per_repository no_repr down two_repos_raw
           (TransportError "503") 1 base_api_url version_tags
           project_keys_and_slugs (fun _ _ => eq_refl)).
  lia.
Defined.

Lemma repository_rows_witness :
  exists r',
    scan_repository no_repr two_repos two_repos_raw 3 base_api_url
      version_tags (mkReport [] [] []) ("EVT", "attendee-order") = Some r'
    /\ rows r'
       = [] ++ flat_map
                 (fun f =>
                    match two_repos_raw
                            (file_url no_repr "EVT" "attendee-order" f
                               base_api_url) with
                    | RawText content =>
                        content_rows "EVT" "attendee-order" f version_tags
                          content
                    | RawFails _ => []
                    end)
                 (pom_files evt_walk).
Proof.
  apply (repository_rows_in_full no_repr two_repos two_repos_raw 3
           base_api_url version_tags (mkReport [] [] []) "EVT"
           "attendee-order" evt_walk).
  reflexivity.
Defined.

Lemma report_concatenation_witness :
  rows three_repos_report
  = [] ++ flat_map
            (repo_rows_alone no_repr two_repos two_repos_raw 3 base_api_url
               version_tags)
            three_repos.
Proof.
  apply (report_is_concatenation_of_repositories no_repr two_repos
           two_repos_raw 3 base_api_url version_tags three_repos
           (table_by_url _) (mkReport [] [] []) three_repos_report).
  vm_compute; reflexivity.
Defined.

Lemma single_page_tree_witness :
  exists t,
    trace (snd (find_pom_xml_in_repo no_repr nested "R" "R" 3 [])) = [] ++ t
    /\ visited t = flat_map entries_in_order nested_tree
    /\ [JStr "pom.xml"; JStr "m/pom.xml"; JStr "m/n/pom.xml";
        JStr "z/pom.xml"]
       = flat_map discovered (flat_map entries_in_order nested_tree).
Proof.
  apply (single_page_tree_walked_depth_first no_repr nested "R" "R" 3 []
           nested_tree
           (snd (find_pom_xml_in_repo no_repr nested "R" "R" 3 []))).
  - discriminate.
  - eexists; split; [intros sent; reflexivity|].
    split; [reflexivity|]; split; [reflexivity|].
    repeat constructor;
      eexists _, _; split; [reflexivity|];
      split; [intros sent; reflexivity|];
      split; [reflexivity|]; split; [reflexivity|]; repeat split;
      eexists _, _; split; [reflexivity|];
      split; [intros sent; reflexivity|];
      split; [reflexivity|]; split; [reflexivity|]; repeat split.
  - reflexivity.
Defined.

Lemma closing_lines_witness :
  exists lines,
    stdout three_repos_report = [] ++ lines
    /\ length (filter is_repo_line lines) = 3.
Proof.
  apply (one_closing_line_per_repository no_repr two_repos two_repos_raw 3
           base_api_url version_tags three_repos (mkReport [] [] [])
           three_repos_report).
  vm_compute; reflexivity.
Defined.

(** C8 on a run over four of the configured repositories with [two_repos]:
    the first and the third cannot be listed, the second and the fourth
    are listed and reported. *)
Lemma C8_witness :
  exists r',
    scan_all no_repr two_repos two_repos_raw 3 base_api_url version_tags
      [("PT", "oss-event-reporting-datasource"); ("PT", "sms");
       ("API", "universal-appointments"); ("EVT", "attendee-order")]
      (mkReport [] [] [])
    = Some r'
    /\ rows r'
       = [] ++ [mkRow "PT" "sms" (JStr "pom.xml") "postgresql.version" "42.3.1";
                mkRow "EVT" "attendee-order" (JStr "pom.xml")
                  "mono-java.version" "2.1.5";
                mkRow "EVT" "attendee-order" (JStr "pom.xml")
                  "maven-parent" "7";
                mkRow "EVT" "attendee-order" (JStr "core/pom.xml")
                  "maven-parent" EmptyString]
    /\ stdout r'
       = [] ++ ErrorProcessingRepo "PT" "oss-event-reporting-datasource"
                 (TransportError "404")
               :: [BlankLine;
                   ErrorProcessingRepo "API" "universal-appointments"
                     (TransportError "404");
                   ErrorProcessingFile "EVT" "attendee-order"
                     (JStr "gone/pom.xml") (TransportError "404");
                   BlankLine]
    /\ length
         (filter is_repo_line
            [BlankLine;
             ErrorProcessingRepo "API" "universal-appointments"
               (TransportError "404");
             ErrorProcessingFile "EVT" "attendee-order"
               (JStr "gone/pom.xml") (TransportError "404");
             BlankLine])
       = 3
    /\ exists t,
         listing r'
         = [Request 0 (files_url "PT" "oss-event-reporting-datasource")
              (Fails (TransportError "404"))] ++ t
         /\ Forall
              (fun repo => In (stash_files_url base_api_url repo) (requests t))
              [("PT", "sms"); ("API", "universal-appointments");
               ("EVT", "attendee-order")].
Proof.
  refine (proj2 (proj2 (proj2
            (C8_failed_repository_does_not_stop_the_run no_repr two_repos
               two_repos_raw 3 base_api_url version_tags "PT"
               "oss-event-reporting-datasource"
               [("PT", "sms"); ("API", "universal-appointments");
                ("EVT", "attendee-order")]
               (mkReport [] [] []) (TransportError "404")
               (mkWorld
                  [Request 0 (files_url "PT" "oss-event-reporting-datasource")
                     (Fails (TransportError "404"))] [])
               eq_refl))) _).
  vm_compute; repeat (apply Forall_cons; [discriminate|]); apply Forall_nil.
Defined.

End MoreRuns.
